(** * Power analysis for an A/B test on click-through rates (tmp.py)

    A shallow embedding of [calculate_power] and [plot_power_analysis].

    - float64 values are IEEE 754 binary64 numbers, taken from the
      executable specification of the Standard Library ([SpecFloat], with
      [prec = 53] and [emax = 1024]): every operation rounds to nearest,
      ties to even, and NaN, the infinities and signed zeros are values.
    - int64 array elements are integers with the two's-complement
      wrap-around written out.
    - The random generator is explicit state: a generator state [G] is
      threaded through the two calls of [np.random.binomial].
    - A Python exception is an outcome of a computation ([Raises]). *)

From Stdlib Require Import ZArith List String Lia Bool.
From Stdlib Require Import Floats.SpecFloat.
From Stdlib Require Import DecimalString.
Import ListNotations.
Open Scope Z_scope.

(** ** binary64 *)

Definition prec : Z := 53.
Definition emax : Z := 1024.

Definition float : Type := spec_float.

Definition fadd : float -> float -> float := SFadd prec emax.
Definition fsub : float -> float -> float := SFsub prec emax.
Definition fmul : float -> float -> float := SFmul prec emax.
Definition fdiv : float -> float -> float := SFdiv prec emax.
Definition fsqrt : float -> float := SFsqrt prec emax.
Definition fabs : float -> float := SFabs.
Definition fltb : float -> float -> bool := SFltb.
Definition fleb : float -> float -> bool := SFleb.

(** [x > y] of Python and numpy: false as soon as one side is NaN. *)
Definition fgtb (x y : float) : bool := fltb y x.

(** Conversion of an integer to float64, rounding to nearest even. *)
Definition of_int (z : Z) : float := binary_normalize prec emax z 0 false.

Definition fzero : float := S754_zero false.
Definition one : float := S754_finite false 4503599627370496 (-52).
Definition two : float := S754_finite false 4503599627370496 (-51).

(** numpy casts [True] to [1.0] and [False] to [0.0]. *)
Definition of_bool (b : bool) : float := if b then one else fzero.

Definition is_nan (x : float) : bool :=
  match x with S754_nan => true | _ => false end.



(** [0 <= x <= 1]; false on NaN. *)
Definition in_unit_interval (x : float) : bool := fleb fzero x && fleb x one.

(** The float64 that represents the integer [k] exactly: a 53-bit mantissa
    [m] and an exponent [e] with [m * 2^e = k]. *)
Definition int_float (k : Z) (m : positive) (e : Z) : Prop :=
  Zpos (digits2_pos m) = 53 /\ -52 <= e <= 1 /\ Zpos m * 2 ^ (e + 52) = k * 2 ^ 52.

(** ** int64 *)

Definition int64_max : Z := 2 ^ 63 - 1.

Definition wrap64 (z : Z) : Z := (z + 2 ^ 63) mod 2 ^ 64 - 2 ^ 63.

Definition int64_add (a b : Z) : Z := wrap64 (a + b).
Definition int64_mul (a b : Z) : Z := wrap64 (a * b).

(** ** Exceptions and the generator-state monad *)

Record exn : Type := { exn_class : string; exn_text : string }.

Definition ValueError (text : string) : exn :=
  {| exn_class := "ValueError"; exn_text := text |}.

Inductive outcome (A : Type) : Type :=
| Returns (a : A)
| Raises (e : exn).
Arguments Returns {A} a.
Arguments Raises {A} e.

(** [str(n)] for an integer. *)
Definition str_int (n : Z) : string := NilZero.string_of_int (Z.to_int n).

(** ** numpy arrays, element by element *)

Fixpoint map2 {A B C : Type} (f : A -> B -> C) (xs : list A) (ys : list B) : list C :=
  match xs, ys with
  | x :: xs', y :: ys' => f x y :: map2 f xs' ys'
  | _, _ => []
  end.

(** int64 array + int64 array *)
Definition arr_add (xs ys : list Z) : list Z := map2 int64_add xs ys.

(** int64 array / integer scalar: true division, both sides cast to float64 *)
Definition arr_int_div (xs : list Z) (d : Z) : list float :=
  map (fun x => fdiv (of_int x) (of_int d)) xs.

(** float64 array / integer scalar *)
Definition arr_div_int (xs : list float) (d : Z) : list float :=
  map (fun x => fdiv x (of_int d)) xs.

(** scalar * float64 array, scalar - float64 array *)
Definition scalar_mul (c : float) (xs : list float) : list float := map (fmul c) xs.
Definition scalar_sub (c : float) (xs : list float) : list float := map (fsub c) xs.

Definition arr_mul (xs ys : list float) : list float := map2 fmul xs ys.
Definition arr_sub (xs ys : list float) : list float := map2 fsub xs ys.
Definition arr_div (xs ys : list float) : list float := map2 fdiv xs ys.
Definition np_sqrt (xs : list float) : list float := map fsqrt xs.
Definition np_abs (xs : list float) : list float := map fabs xs.

(** float64 array > scalar: a boolean array *)
Definition arr_gt (xs : list float) (c : float) : list bool :=
  map (fun x => fgtb x c) xs.

(** Sum of a boolean array accumulated in float64, as [np.mean] does for a
    boolean input.  Every partial sum is an integer, so the order in which
    numpy adds the elements does not change the value while the count stays
    exactly representable. *)
Definition np_sum_bool (bs : list bool) : float :=
  fold_left (fun acc b => fadd acc (of_bool b)) bs fzero.

(** [np.mean] of a boolean array: the float64 sum divided by the length. *)
Definition np_mean (bs : list bool) : float :=
  fdiv (np_sum_bool bs) (of_int (Z.of_nat (List.length bs))).

(** [np.arange(start, stop, step)] for integers and a positive step. *)
Definition np_arange (start stop step : Z) : list Z :=
  map (fun i => start + Z.of_nat i * step)
      (seq 0 (Z.to_nat ((stop - start + step - 1) / step))).

Definition count_true (bs : list bool) : Z := Z.of_nat (List.length (filter (fun b => b) bs)).

(** ** Module-level parameters (tmp.py, lines 8-11) *)

(** [0.05] and [0.8] are not binary64 numbers; Python reads each literal as
    the nearest one. *)
Definition alpha : float := S754_finite false 7205759403792794 (-57).
Definition desired_power : float := S754_finite false 7205759403792794 (-53).
Definition num_simulations : Z := 10000.
Definition sample_sizes : list Z := np_arange 500 15000 1000.

(** ** The plotting collaborator

    matplotlib is outside the program; a run records the calls it makes. *)

Inductive plot_call : Type :=
| Figure
| Plot (xs : list Z) (ys : list float)
| Axhline (y : float)
| Decorate
| Annotate (n : Z) (power : float)
| Show.

Record loop_state : Type := {
  results : list (Z * float);
  stdout : list string
}.

Record run : Type := {
  printed : list string;
  calls : list plot_call;
  raised : option exn
}.

(** [f"Error calculating power for sample size {n}: {e}"] *)
Definition error_message (n : Z) (e : exn) : string :=
  ("Error calculating power for sample size " ++ str_int n ++ ": " ++ exn_text e)%string.

(** Line 62 transposes [results] with [zip] and unpacks into two names: the
    transposition of an empty list yields nothing, and unpacking nothing
    into two names raises. *)
Definition unzip_pair (rs : list (Z * float)) : outcome (list Z * list float) :=
  match rs with
  | [] => Raises (ValueError "not enough values to unpack (expected 2, got 0)")
  | _ :: _ => Returns (split rs)
  end.

(** A deterministic generator used to run the model on concrete inputs: the
    state is a counter and the [i]-th variate is [i mod (n + 1)]. *)
Definition counter_draw (g : nat) (n : Z) (p : float) : Z * nat :=
  (Z.of_nat g mod (n + 1), S g).

Definition constant_ppf (q : float) : float := two.

Section Program.

(** The generator: one binomial variate for [n] trials of probability [p],
    and the next generator state. *)
Variable G : Type.
Variable draw_binomial : G -> Z -> float -> Z * G.
Hypothesis draw_range :
  forall g n p, 0 <= n -> 0 <= fst (draw_binomial g n p) <= n.

(** [scipy.stats.norm.ppf], the quantile function of the standard normal
    distribution. *)
Variable norm_ppf : float -> float.

Definition M (A : Type) : Type := G -> outcome A * G.

Definition ret {A : Type} (a : A) : M A := fun g => (Returns a, g).

Definition bind {A B : Type} (c : M A) (k : A -> M B) : M B :=
  fun g =>
    match c g with
    | (Returns a, g') => k a g'
    | (Raises e, g') => (Raises e, g')
    end.

Notation "x <- c ;; k" := (bind c (fun x => k))
  (at level 61, c at next level, right associativity).

(** [size] variates drawn one after the other. *)
Fixpoint draws (g : G) (n : Z) (p : float) (size : nat) : list Z * G :=
  match size with
  | O => ([], g)
  | S k =>
      let '(x, g1) := draw_binomial g n p in
      let '(xs, g2) := draws g1 n p k in
      (x :: xs, g2)
  end.

Definition valid_prob (p : float) : bool := fleb fzero p && fleb p one.

(** [np.random.binomial(n, p, size)]: numpy checks [p], then [n], then the
    shape, and raises [ValueError] before drawing anything. *)
Definition np_random_binomial (n : Z) (p : float) (size : Z) : M (list Z) :=
  fun g =>
    if negb (valid_prob p) then (Raises (ValueError "p < 0, p > 1 or p is NaN"), g)
    else if n <? 0 then (Raises (ValueError "n < 0"), g)
    else if size <? 0 then (Raises (ValueError "negative dimensions are not allowed"), g)
    else let '(xs, g') := draws g n p (Z.to_nat size) in (Returns xs, g').

(** ** calculate_power (tmp.py, lines 13-42) *)

(** line 31 *)
Definition pooled_prob_of (n : Z) (successes_control successes_treatment : list Z)
  : list float :=
  arr_int_div (arr_add successes_control successes_treatment) (int64_mul 2 n).

(** line 32 *)
Definition pooled_se_of (n : Z) (pooled_prob : list float) : list float :=
  np_sqrt (arr_div_int (arr_mul (scalar_mul two pooled_prob) (scalar_sub one pooled_prob)) n).

(** line 35 *)
Definition z_scores_of (n : Z) (successes_control successes_treatment : list Z)
    (pooled_se : list float) : list float :=
  arr_div (arr_sub (arr_int_div successes_treatment n) (arr_int_div successes_control n))
          pooled_se.

(** line 38 *)
Definition critical_value_of (alpha : float) : float :=
  norm_ppf (fsub one (fdiv alpha two)).

(** lines 31-42, after the two draws *)
Definition power_of (n : Z) (alpha : float)
    (successes_control successes_treatment : list Z) : float :=
  let pooled_prob := pooled_prob_of n successes_control successes_treatment in
  let pooled_se := pooled_se_of n pooled_prob in
  let z_scores := z_scores_of n successes_control successes_treatment pooled_se in
  let critical_value := critical_value_of alpha in
  np_mean (arr_gt (np_abs z_scores) critical_value).

Definition calculate_power (n : Z) (p_control p_treatment alpha : float)
    (num_simulations : Z) : M float :=
  successes_control <- np_random_binomial n p_control num_simulations ;;
  successes_treatment <- np_random_binomial n p_treatment num_simulations ;;
  ret (power_of n alpha successes_control successes_treatment).

(** One element of the arrays of lines 31, 32 and 35: what the vectorised
    expressions compute for the trial with [c] control and [t] treatment
    successes. *)
Definition pooled_prob_at (n c t : Z) : float :=
  fdiv (of_int (int64_add c t)) (of_int (int64_mul 2 n)).

Definition pooled_se_at (n : Z) (p : float) : float :=
  fsqrt (fdiv (fmul (fmul two p) (fsub one p)) (of_int n)).

Definition z_score_at (n c t : Z) : float :=
  fdiv (fsub (fdiv (of_int t) (of_int n)) (fdiv (of_int c) (of_int n)))
       (pooled_se_at n (pooled_prob_at n c t)).

(** ** plot_power_analysis (tmp.py, lines 44-75) *)

(** One pass of the [for] body (lines 53-58) around an estimation
    [estimate n]. *)
Definition loop_body (estimate : Z -> M float) (st : loop_state * G) (n : Z)
  : loop_state * G :=
  let '(s, g) := st in
  match estimate n g with
  | (Returns current_power, g') =>
      ({| results := results s ++ [(n, current_power)]; stdout := stdout s |}, g')
  | (Raises e, g') =>
      ({| results := results s; stdout := stdout s ++ [error_message n e] |}, g')
  end.

(** lines 51-58 *)
Definition estimation_loop (estimate : Z -> M float) (sizes : list Z) (g : G)
  : loop_state * G :=
  fold_left (loop_body estimate) sizes ({| results := []; stdout := [] |}, g).

(** lines 60-75 *)
Definition render (s : loop_state) : run :=
  match unzip_pair (results s) with
  | Raises e => {| printed := stdout s; calls := [Figure]; raised := Some e |}
  | Returns (sample_sizes_vals, powers) =>
      {| printed := stdout s;
         calls := [Figure; Plot sample_sizes_vals powers; Axhline desired_power; Decorate]
                  ++ map (fun r => Annotate (fst r) (snd r)) (results s) ++ [Show];
         raised := None |}
  end.

Definition driver (estimate : Z -> M float) (sizes : list Z) (g : G) : run * G :=
  let '(s, g') := estimation_loop estimate sizes g in (render s, g').

Definition plot_power_analysis (p_control p_treatment : float) (g : G) : run * G :=
  driver (fun n => calculate_power n p_control p_treatment alpha num_simulations)
         sample_sizes g.

(** The outcome of every estimation of the loop, in the order of the calls,
    and what the loop keeps of them. *)
Fixpoint loop_outcomes (estimate : Z -> M float) (sizes : list Z) (g : G)
  : list (Z * outcome float) :=
  match sizes with
  | [] => []
  | n :: rest =>
      let '(o, g') := estimate n g in (n, o) :: loop_outcomes estimate rest g'
  end.

Definition returned_pairs (os : list (Z * outcome float)) : list (Z * float) :=
  flat_map (fun no => match snd no with
                      | Returns p => [(fst no, p)]
                      | Raises _ => []
                      end) os.

Definition reported_lines (os : list (Z * outcome float)) : list string :=
  flat_map (fun no => match snd no with
                      | Returns _ => []
                      | Raises e => [error_message (fst no) e]
                      end) os.

Definition has_raised {A : Type} (o : outcome A) : bool :=
  match o with Raises _ => true | Returns _ => false end.

(** ** The specification's per-trial formulas *)

Definition pooled_proportion (n c t : Z) : float :=
  fdiv (of_int (c + t)) (of_int (2 * n)).

Definition pooled_standard_error (n c t : Z) : float :=
  let p := pooled_proportion n c t in
  fsqrt (fdiv (fmul (fmul two p) (fsub one p)) (of_int n)).

Definition trial_z_score (n c t : Z) : float :=
  fdiv (fsub (fdiv (of_int t) (of_int n)) (fdiv (of_int c) (of_int n)))
       (pooled_standard_error n c t).

Definition significant (critical_value : float) (n : Z) (ct : Z * Z) : bool :=
  fgtb (fabs (trial_z_score n (fst ct) (snd ct))) critical_value.

(** The fraction of the trials whose absolute z-score exceeds the critical
    value. *)
Definition fraction_significant (critical_value : float) (n : Z)
    (successes_control successes_treatment : list Z) : float :=
  let trials := combine successes_control successes_treatment in
  fdiv (of_int (Z.of_nat (List.length (filter (significant critical_value n) trials))))
       (of_int (Z.of_nat (List.length trials))).

(** The two arrays of successes that [calculate_power] draws from state [g]. *)
Definition drawn_control (g : G) (n : Z) (p_control : float) (size : Z) : list Z :=
  fst (draws g n p_control (Z.to_nat size)).

Definition drawn_treatment (g : G) (n : Z) (p_control p_treatment : float) (size : Z)
  : list Z :=
  fst (draws (snd (draws g n p_control (Z.to_nat size))) n p_treatment (Z.to_nat size)).

Definition state_after (g : G) (n : Z) (p_control p_treatment : float) (size : Z) : G :=
  snd (draws (snd (draws g n p_control (Z.to_nat size))) n p_treatment (Z.to_nat size)).

(** Valid arguments of the estimator.  A sample size is an int64 whose double
    still is one, and an array of booleans is summed exactly up to
    [2^53] elements. *)
Definition max_sample_size : Z := 2 ^ 62 - 1.
Definition max_repetitions : Z := 2 ^ 53.

Definition valid_alpha (a : float) : bool := fltb fzero a && fltb a one.

(** ** The two sliders (tmp.py, lines 78-79)

    Each slider hands the driver a value between its [min] and its [max]. *)

Record slider : Type := {
  slider_value : float;
  slider_min : float;
  slider_max : float;
  slider_step : float
}.

(** [0.05], [0.06], [0.01], [0.10] and [0.001] as Python reads them. *)
Definition p_control_slider : slider :=
  {| slider_value := S754_finite false 7205759403792794 (-57);
     slider_min := S754_finite false 5764607523034235 (-59);
     slider_max := S754_finite false 7205759403792794 (-56);
     slider_step := S754_finite false 4611686018427388 (-62) |}.

Definition p_treatment_slider : slider :=
  {| slider_value := S754_finite false 8646911284551352 (-57);
     slider_min := S754_finite false 5764607523034235 (-59);
     slider_max := S754_finite false 7205759403792794 (-56);
     slider_step := S754_finite false 4611686018427388 (-62) |}.

Definition in_slider_range (s : slider) (p : float) : bool :=
  fleb (slider_min s) p && fleb p (slider_max s).

(** A quantile function that is NaN everywhere, as [norm.ppf] is outside
    [0, 1]. *)
Definition nan_ppf (q : float) : float := S754_nan.

(** ** binary64: digits, shifts and exact rounding *)

Lemma digits2_pos_spec (p : positive) :
  2 ^ (Zpos (digits2_pos p) - 1) <= Zpos p < 2 ^ Zpos (digits2_pos p).
Proof.
  induction p as [p IH | p IH |]; cbn [digits2_pos].
  - rewrite Pos2Z.inj_succ, Z.pow_succ_r by lia.
    replace (Z.succ (Zpos (digits2_pos p)) - 1) with (Z.succ (Zpos (digits2_pos p) - 1)) by lia.
    rewrite Z.pow_succ_r by lia. lia.
  - rewrite Pos2Z.inj_succ, Z.pow_succ_r by lia.
    replace (Z.succ (Zpos (digits2_pos p)) - 1) with (Z.succ (Zpos (digits2_pos p) - 1)) by lia.
    rewrite Z.pow_succ_r by lia. lia.
  - simpl. lia.
Qed.

Lemma digits2_pos_unique (p : positive) (d : Z) :
  2 ^ (d - 1) <= Zpos p < 2 ^ d -> Zpos (digits2_pos p) = d.
Proof.
  intros [Hlo Hhi]. pose proof (digits2_pos_spec p) as [Hlo' Hhi'].
  assert (0 <= d) by (destruct (Z.ltb_spec d 0); [rewrite Z.pow_neg_r in Hhi by lia; lia | lia]).
  destruct (Z.lt_trichotomy (Zpos (digits2_pos p)) d) as [Hlt | [Heq | Hgt]]; [| exact Heq |].
  - assert (2 ^ Zpos (digits2_pos p) <= 2 ^ (d - 1)) by (apply Z.pow_le_mono_r; lia). lia.
  - assert (2 ^ d <= 2 ^ (Zpos (digits2_pos p) - 1)) by (apply Z.pow_le_mono_r; lia). lia.
Qed.

Lemma iter_pos_nat {A} (f : A -> A) (p : positive) (x : A) :
  iter_pos f p x = Nat.iter (Pos.to_nat p) f x.
Proof.
  revert x. induction p as [p IH | p IH |]; intros x; cbn [iter_pos].
  - rewrite !IH, Pos2Nat.inj_xI. 
    replace (S (2 * Pos.to_nat p))%nat with (Pos.to_nat p + (Pos.to_nat p + 1))%nat by lia.
    rewrite !Nat.iter_add. reflexivity.
  - rewrite !IH, Pos2Nat.inj_xO.
    replace (2 * Pos.to_nat p)%nat with (Pos.to_nat p + Pos.to_nat p)%nat by lia.
    rewrite Nat.iter_add. reflexivity.
  - reflexivity.
Qed.

Lemma shr_1_m (mrs : shr_record) :
  0 <= shr_m mrs -> shr_m (shr_1 mrs) = shr_m mrs / 2.
Proof.
  destruct mrs as [m r s]. cbn [shr_m]. intros Hm.
  destruct m as [| [p | p |] | p]; cbn [shr_1 shr_m]; try lia.
  - reflexivity.
  - apply Z.div_unique with 1; lia.
  - apply Z.div_unique with 0; lia.
  - reflexivity.
Qed.

Lemma shr_1_exact (m : Z) :
  0 <= m -> m mod 2 = 0 ->
  shr_1 (Build_shr_record m false false) = Build_shr_record (m / 2) false false.
Proof.
  intros Hm Hmod.
  destruct m as [| [p | p |] | p]; cbn [shr_1 orb]; try lia.
  - reflexivity.
  - exfalso. rewrite Pos2Z.inj_xI in Hmod.
    rewrite Z.add_comm, Z.mul_comm, Z.mod_add in Hmod by lia. discriminate.
  - f_equal. apply Z.div_unique with 0; lia.
  - discriminate.
Qed.

Lemma iter_shr_1_m (n : nat) (mrs : shr_record) :
  0 <= shr_m mrs ->
  shr_m (Nat.iter n shr_1 mrs) = shr_m mrs / 2 ^ Z.of_nat n.
Proof.
  intros Hm. induction n as [| n IH].
  - simpl. now rewrite Z.div_1_r.
  - rewrite Nat.iter_succ, shr_1_m.
    + rewrite IH, Nat2Z.inj_succ, Z.pow_succ_r by lia.
      rewrite Z.div_div by lia. f_equal. lia.
    + rewrite IH. apply Z.div_pos; lia.
Qed.

Lemma iter_shr_1_exact (n : nat) (m : Z) :
  0 <= m -> m mod 2 ^ Z.of_nat n = 0 ->
  Nat.iter n shr_1 (Build_shr_record m false false) =
  Build_shr_record (m / 2 ^ Z.of_nat n) false false.
Proof.
  intros Hm. induction n as [| n IH]; intros Hmod.
  - simpl. now rewrite Z.div_1_r.
  - rewrite Nat.iter_succ.
    rewrite Nat2Z.inj_succ, Z.pow_succ_r in * by lia.
    assert (H2n : 0 < 2 ^ Z.of_nat n) by lia.
    apply Z.mod_divide in Hmod; [| lia]. destruct Hmod as [c Hc].
    rewrite IH.
    2:{ apply Z.mod_divide; [lia |]. exists (c * 2). lia. }
    replace m with ((c * 2) * 2 ^ Z.of_nat n) by lia.
    rewrite Z.div_mul by lia.
    rewrite shr_1_exact.
    + f_equal. rewrite Z.div_mul by lia.
      replace (c * 2 * 2 ^ Z.of_nat n) with (c * (2 * 2 ^ Z.of_nat n)) by lia.
      rewrite Z.div_mul by lia. reflexivity.
    + nia.
    + now rewrite Z.mod_mul by lia.
Qed.

Lemma Zdigits2_spec (z : Z) :
  0 < z -> 2 ^ (Zdigits2 z - 1) <= z < 2 ^ Zdigits2 z.
Proof.
  destruct z as [| p | p]; try lia. intros _. apply digits2_pos_spec.
Qed.

Lemma Zdigits2_unique (z d : Z) :
  0 < z -> 2 ^ (d - 1) <= z < 2 ^ d -> Zdigits2 z = d.
Proof.
  destruct z as [| p | p]; try lia. intros _. apply digits2_pos_unique.
Qed.

Lemma Zdigits2_shift (z j : Z) :
  0 < z -> 0 <= j -> Zdigits2 (z * 2 ^ j) = Zdigits2 z + j.
Proof.
  intros Hz Hj. pose proof (Zdigits2_spec z Hz) as [Hlo Hhi].
  assert (Hd : 0 < Zdigits2 z) by (destruct z; simpl; lia).
  assert (H2 : 0 < 2 ^ j) by (apply Z.pow_pos_nonneg; lia).
  apply Zdigits2_unique; [nia |].
  replace (Zdigits2 z + j - 1) with ((Zdigits2 z - 1) + j) by lia.
  rewrite !Z.pow_add_r by lia. nia.
Qed.

Lemma fexp_eq (e : Z) : fexp prec emax e = Z.max (e - 53) (-1074).
Proof. reflexivity. Qed.

Lemma shr_spec (mrs : shr_record) (e n : Z) :
  0 <= shr_m mrs ->
  shr_m (fst (shr mrs e n)) = shr_m mrs / 2 ^ Z.max 0 n /\
  snd (shr mrs e n) = e + Z.max 0 n.
Proof.
  intros Hm. destruct n as [| p | p]; cbn [shr fst snd].
  - rewrite Z.max_id, Z.div_1_r. lia.
  - rewrite iter_pos_nat, iter_shr_1_m, positive_nat_Z by assumption.
    rewrite Z.max_r by lia. split; reflexivity.
  - rewrite Z.max_l by lia. rewrite Z.div_1_r. lia.
Qed.

Lemma shr_exact (m e n : Z) :
  0 <= m -> m mod 2 ^ Z.max 0 n = 0 ->
  fst (shr (Build_shr_record m false false) e n) =
  Build_shr_record (m / 2 ^ Z.max 0 n) false false.
Proof.
  intros Hm Hmod. destruct n as [| p | p]; cbn [shr fst].
  - now rewrite Z.max_id, Z.div_1_r.
  - rewrite Z.max_r in * by lia.
    rewrite iter_pos_nat. rewrite <- (positive_nat_Z p) in *.
    now apply iter_shr_1_exact.
  - rewrite Z.max_l by lia. now rewrite Z.div_1_r.
Qed.

Lemma binary_round_aux_eq (s : bool) (mx ex : Z) (lx : location) :
  binary_round_aux prec emax s mx ex lx =
  let r1 := shr_fexp prec emax mx ex lx in
  let m2 := round_nearest_even (shr_m (fst r1)) (loc_of_shr_record (fst r1)) in
  let r2 := shr_fexp prec emax m2 (snd r1) loc_Exact in
  match shr_m (fst r2) with
  | Z0 => S754_zero s
  | Zpos m => if snd r2 <=? emax - prec then S754_finite s m (snd r2)
              else S754_infinity s
  | Zneg _ => S754_nan
  end.
Proof.
  unfold binary_round_aux.
  destruct (shr_fexp prec emax mx ex lx) as [mrs' e'].
  cbn [fst snd].
  destruct (shr_fexp prec emax _ e' loc_Exact) as [mrs'' e''].
  reflexivity.
Qed.

Lemma binary_round_aux_exact (s : bool) (m : positive) (e j : Z) :
  canonical_mantissa prec emax m e = true -> e <= emax - prec -> 0 <= j ->
  binary_round_aux prec emax s (Zpos m * 2 ^ j) (e - j) loc_Exact = S754_finite s m e.
Proof.
  intros Hcan He Hj. unfold canonical_mantissa in Hcan. apply Z.eqb_eq in Hcan.
  assert (H2 : 0 < 2 ^ j) by (apply Z.pow_pos_nonneg; lia).
  rewrite binary_round_aux_eq. cbv zeta.
  assert (Hr1 : shr_fexp prec emax (Zpos m * 2 ^ j) (e - j) loc_Exact =
                (Build_shr_record (Zpos m) false false, e)).
  { unfold shr_fexp. rewrite Zdigits2_shift by lia. cbn [Zdigits2].
    replace (Zpos (digits2_pos m) + j + (e - j)) with (Zpos (digits2_pos m) + e) by lia.
    rewrite Hcan. replace (e - (e - j)) with j by lia. cbn [shr_record_of_loc].
    rewrite (surjective_pairing (shr _ _ _)).
    rewrite shr_exact. 2:{ apply Z.mul_nonneg_nonneg; lia. } 2:{ rewrite Z.max_r by lia; now rewrite Z.mod_mul by lia. }
    destruct (shr_spec (Build_shr_record (Zpos m * 2 ^ j) false false) (e - j) j) as [_ ->];
      [cbn [shr_m]; apply Z.mul_nonneg_nonneg; lia |].
    rewrite Z.max_r by lia. rewrite Z.div_mul by lia. f_equal. lia. }
  rewrite Hr1. cbn [fst snd shr_m loc_of_shr_record round_nearest_even].
  unfold shr_fexp. cbn [Zdigits2]. rewrite Hcan, Z.sub_diag. cbn [shr shr_record_of_loc fst snd shr_m].
  apply Z.leb_le in He. now rewrite He.
Qed.

Lemma pos_iter_xO (p n : positive) : Zpos (Pos.iter xO p n) = Zpos p * 2 ^ Zpos n.
Proof.
  induction n as [| n IH] using Pos.peano_ind.
  - cbn [Pos.iter]. lia.
  - rewrite Pos.iter_succ, Pos2Z.inj_xO, IH, Pos2Z.inj_succ, Z.pow_succ_r by lia. lia.
Qed.

Lemma shl_align_spec (mx : positive) (ex ex' : Z) :
  Zpos (fst (shl_align mx ex ex')) = Zpos mx * 2 ^ Z.max 0 (ex - ex') /\
  snd (shl_align mx ex ex') = Z.min ex ex'.
Proof.
  unfold shl_align. destruct (ex' - ex) as [| d | d] eqn:Hd; cbn [fst snd].
  - rewrite Z.max_l by lia. rewrite Z.min_l by lia. lia.
  - rewrite Z.max_l by lia. rewrite Z.min_l by lia. lia.
  - rewrite pos_iter_xO. replace (Z.max 0 (ex - ex')) with (Zpos d) by lia.
    rewrite Z.min_r by lia. lia.
Qed.

Lemma binary_round_exact (s : bool) (mx : positive) (ex : Z) (m : positive) (e : Z) :
  canonical_mantissa prec emax m e = true -> e <= emax - prec ->
  (e <= ex /\ Zpos m = Zpos mx * 2 ^ (ex - e)) \/
  (ex <= e /\ Zpos mx = Zpos m * 2 ^ (e - ex)) ->
  binary_round prec emax s mx ex = S754_finite s m e.
Proof.
  intros Hcan He Hval. pose proof Hcan as Hcan'.
  unfold canonical_mantissa in Hcan'. apply Z.eqb_eq in Hcan'.
  assert (Hmag : Zpos (digits2_pos mx) + ex = Zpos (digits2_pos m) + e).
  { destruct Hval as [[Hle Hv] | [Hle Hv]].
    - change (Zpos (digits2_pos m)) with (Zdigits2 (Zpos m)).
      rewrite Hv, Zdigits2_shift by lia. cbn [Zdigits2]. lia.
    - change (Zpos (digits2_pos mx)) with (Zdigits2 (Zpos mx)).
      rewrite Hv, Zdigits2_shift by lia. cbn [Zdigits2]. lia. }
  unfold binary_round. rewrite Hmag, Hcan'.
  destruct (shl_align_spec mx ex e) as [Hm Hex].
  rewrite (surjective_pairing (shl_align mx ex e)), Hex.
  destruct Hval as [[Hle Hv] | [Hle Hv]].
  - rewrite Z.min_r by lia. rewrite Z.max_r in Hm by lia.
    rewrite Hm, <- Hv.
    replace (Zpos m) with (Zpos m * 2 ^ 0) by (rewrite Z.pow_0_r; lia).
    replace e with (e - 0) at 1 by lia.
    apply binary_round_aux_exact; [assumption | assumption | lia].
  - rewrite Z.min_l by lia.
    destruct (Z.eq_dec ex e) as [-> | Hne].
    + rewrite Z.sub_diag, Z.max_id, Z.pow_0_r, Z.mul_1_r in Hm. 
      assert (Zpos mx = Zpos m) by (rewrite Hv, Z.sub_diag, Z.pow_0_r; lia).
      rewrite Hm, H.
      replace (Zpos m) with (Zpos m * 2 ^ 0) by (rewrite Z.pow_0_r; lia).
      replace e with (e - 0) at 1 by lia.
      apply binary_round_aux_exact; [assumption | assumption | lia].
    + rewrite Z.max_l in Hm by lia. rewrite Z.pow_0_r, Z.mul_1_r in Hm.
      rewrite Hm, Hv. replace ex with (e - (e - ex)) at 2 by lia.
      apply binary_round_aux_exact; [assumption | assumption | lia].
Qed.

Lemma int_float_exists (k : Z) :
  0 < k <= 2 ^ 53 -> exists m e, int_float k m e.
Proof.
  intros Hk. destruct (Z.eq_dec k (2 ^ 53)) as [-> | Hne].
  - exists 4503599627370496%positive, 1. repeat split; try reflexivity; lia.
  - pose proof (Zdigits2_spec k ltac:(lia)) as [Hlo Hhi].
    set (d := Zdigits2 k) in *.
    assert (Hd1 : 1 <= d) by (subst d; destruct k; simpl; lia).
    assert (Hd : d <= 53).
    { destruct (Z.leb_spec d 53); [assumption |].
      assert (2 ^ 53 <= 2 ^ (d - 1)) by (apply Z.pow_le_mono_r; lia). lia. }
    assert (Hp : 0 < 2 ^ (53 - d)) by (apply Z.pow_pos_nonneg; lia).
    assert (Hm : 0 < k * 2 ^ (53 - d)) by nia.
    exists (Z.to_pos (k * 2 ^ (53 - d))), (d - 53).
    split; [| split].
    + change (Zpos (digits2_pos ?p)) with (Zdigits2 (Zpos p)).
      rewrite Z2Pos.id by assumption. rewrite Zdigits2_shift by lia. fold d. lia.
    + lia.
    + rewrite Z2Pos.id by assumption. rewrite <- Z.mul_assoc, <- Z.pow_add_r by lia.
      do 2 f_equal. lia.
Qed.

Lemma int_float_canonical (k : Z) (m : positive) (e : Z) :
  int_float k m e -> canonical_mantissa prec emax m e = true /\ e <= emax - prec.
Proof.
  intros (Hd & He & _). unfold canonical_mantissa. rewrite Hd, fexp_eq.
  split; [apply Z.eqb_eq; lia | unfold emax, prec; lia].
Qed.

Lemma of_int_spec (k : Z) (m : positive) (e : Z) :
  int_float k m e -> of_int k = S754_finite false m e.
Proof.
  intros Hif. destruct (int_float_canonical _ _ _ Hif) as [Hcan Hb].
  destruct Hif as (Hd & He & Hv).
  assert (Hk : 0 < k).
  { assert (0 < 2 ^ (e + 52)) by (apply Z.pow_pos_nonneg; lia). nia. }
  destruct k as [| p | p]; try lia.
  unfold of_int, binary_normalize.
  apply binary_round_exact; try assumption.
  destruct (Z.leb_spec e 0) as [Hle | Hgt].
  - left. split; [assumption |].
    assert (E : 2 ^ 52 = 2 ^ (e + 52) * 2 ^ (0 - e)) by (rewrite <- Z.pow_add_r by lia; f_equal; lia).
    assert (0 < 2 ^ (e + 52)) by (apply Z.pow_pos_nonneg; lia).
    rewrite E in Hv. nia.
  - right. split; [lia |]. replace e with 1 in * by lia. 
    change (2 ^ (1 + 52)) with (2 * 2 ^ 52) in Hv. change (2 ^ (1 - 0)) with 2. lia.
Qed.

Lemma int_float_unique (k : Z) (m m' : positive) (e e' : Z) :
  int_float k m e -> int_float k m' e' -> m = m' /\ e = e'.
Proof.
  intros H1 H2.
  pose proof (of_int_spec _ _ _ H1) as E1. pose proof (of_int_spec _ _ _ H2) as E2.
  rewrite E1 in E2. injection E2 as -> ->. split; reflexivity.
Qed.

Lemma fadd_one_exact (k : Z) :
  0 < k < 2 ^ 53 -> fadd (of_int k) one = of_int (k + 1).
Proof.
  intros Hk.
  destruct (int_float_exists k ltac:(lia)) as (m & e & Hif).
  destruct (int_float_exists (k + 1) ltac:(lia)) as (m' & e' & Hif').
  rewrite (of_int_spec _ _ _ Hif), (of_int_spec _ _ _ Hif').
  destruct (int_float_canonical _ _ _ Hif') as [Hcan' Hb'].
  destruct Hif as (Hd & He & Hv). destruct Hif' as (Hd' & He' & Hv').
  assert (He0 : e <= 0).
  { destruct (Z.leb_spec e 0); [assumption | exfalso].
    replace e with 1 in * by lia. change (2 ^ (1 + 52)) with (2 * 2 ^ 52) in Hv.
    pose proof (digits2_pos_spec m) as [Hlo _]. rewrite Hd in Hlo. 
    change (2 ^ (53 - 1)) with (2 ^ 52) in Hlo. change (2 ^ 53) with (2 * 2 ^ 52) in Hk. lia. }
  unfold fadd, SFadd, one. cbn [cond_Zopp].
  rewrite Z.min_r by lia.
  destruct (shl_align_spec m e (-52)) as [Hm1 _].
  destruct (shl_align_spec 4503599627370496 (-52) (-52)) as [Hm2 _].
  rewrite Z.max_r in Hm1 by lia.
  replace (e - -52) with (e + 52) in Hm1 by lia.
  change (Zpos ?a + Zpos ?b) with (Zpos (a + b)).
  unfold binary_normalize.
  apply binary_round_exact; try assumption.
  right. split; [lia |].
  rewrite Pos2Z.inj_add, Hm1, Hm2. 
  replace (e' - -52) with (e' + 52) by lia. rewrite Hv', Hv.
  change (2 ^ Z.max 0 (-52 - -52)) with 1. change (Zpos 4503599627370496) with (2 ^ 52). lia.
Qed.

Lemma shr_m_of_loc (m : Z) (l : location) : shr_m (shr_record_of_loc m l) = m.
Proof. destruct l as [| []]; reflexivity. Qed.

Lemma round_nearest_even_bounds (m : Z) (l : location) :
  m <= round_nearest_even m l <= m + 1.
Proof.
  unfold round_nearest_even. destruct l as [| []]; try lia.
  destruct (Z.even m); lia.
Qed.

Lemma shr_fexp_spec (m e : Z) (l : location) :
  0 <= m ->
  let n := Z.max 0 (fexp prec emax (Zdigits2 m + e) - e) in
  shr_m (fst (shr_fexp prec emax m e l)) = m / 2 ^ n /\
  snd (shr_fexp prec emax m e l) = e + n.
Proof.
  intros Hm n. unfold shr_fexp.
  pose proof (shr_spec (shr_record_of_loc m l) e (fexp prec emax (Zdigits2 m + e) - e)) as H.
  rewrite shr_m_of_loc in H. apply H. assumption.
Qed.

Lemma in_unit_interval_finite (m : positive) (e : Z) :
  e < -52 \/ (e = -52 /\ Zpos m <= 2 ^ 52) ->
  in_unit_interval (S754_finite false m e) = true.
Proof.
  intros H. unfold in_unit_interval, fleb, SFleb, fzero, one. 
  cbn [SFcompare andb].
  destruct (Z.compare_spec e (-52)) as [Heq | Hlt | Hgt]; [| reflexivity | lia].
  destruct H as [H | [_ H]]; [lia |].
  change (2 ^ 52) with (Zpos 4503599627370496) in H.
  timeout 10 (destruct (Pos.compare_cont Eq m 4503599627370496) eqn:E; try reflexivity).
  timeout 10 (apply (proj1 (Pos.compare_gt_iff m 4503599627370496)) in E).
  lia.
Qed.
Lemma binary_round_aux_lt_one (mx ex : Z) (lx : location) :
  53 <= Zdigits2 mx -> 0 < mx < 2 ^ (- ex) ->
  in_unit_interval (binary_round_aux prec emax false mx ex lx) = true.
Proof.
  intros Hd [Hpos Hlt].
  pose proof (Zdigits2_spec mx Hpos) as [Hlo Hhi].
  set (d := Zdigits2 mx) in *.
  assert (Hex : d - 1 < - ex).
  { destruct (Z.ltb_spec (d - 1) (- ex)); [assumption | exfalso].
    destruct (Z.ltb_spec (- ex) 0).
    - rewrite Z.pow_neg_r in Hlt by assumption. lia.
    - assert (2 ^ (- ex) <= 2 ^ (d - 1)) by (apply Z.pow_le_mono_r; lia). lia. }
  rewrite binary_round_aux_eq. cbv zeta.
  destruct (shr_fexp_spec mx ex lx ltac:(lia)) as [Hm1 He1].
  fold d in Hm1, He1. rewrite fexp_eq in Hm1, He1.
  set (n := Z.max 0 (Z.max (d + ex - 53) (-1074) - ex)) in *.
  set (e1 := snd (shr_fexp prec emax mx ex lx)) in *.
  set (m1 := shr_m (fst (shr_fexp prec emax mx ex lx))) in *.
  assert (Hn : n = Z.max (d + ex - 53) (-1074) - ex) by lia.
  assert (Hn0 : 0 <= n) by lia.
  assert (He1' : -1074 <= e1 <= -53) by lia.
  assert (H2n : 0 < 2 ^ n) by (apply Z.pow_pos_nonneg; lia).
  assert (Hm1nn : 0 <= m1) by (rewrite Hm1; apply Z.div_pos; lia).
  assert (Hm1e : m1 < 2 ^ (- e1)).
  { rewrite Hm1. apply Z.div_lt_upper_bound; [assumption |].
    rewrite <- Z.pow_add_r by lia. replace (n + - e1) with (- ex) by lia. assumption. }
  assert (Hm1p : m1 < 2 ^ 53).
  { rewrite Hm1. apply Z.div_lt_upper_bound; [assumption |].
    rewrite <- Z.pow_add_r by lia.
    assert (2 ^ d <= 2 ^ (n + 53)) by (apply Z.pow_le_mono_r; lia). lia. }
  pose proof (round_nearest_even_bounds m1 (loc_of_shr_record (fst (shr_fexp prec emax mx ex lx)))) as Hm2.
  set (m2 := round_nearest_even m1 _) in *.
  destruct (shr_fexp_spec m2 e1 loc_Exact ltac:(lia)) as [Hm3 He3].
  rewrite fexp_eq in Hm3, He3.
  destruct (Z.eq_dec m2 0) as [Hz | Hnz].
  - rewrite Hm3, Hz, Z.div_0_l by (apply Z.pow_nonzero; lia). reflexivity.
  - pose proof (Zdigits2_spec m2 ltac:(lia)) as [Hlo2 Hhi2].
    set (d2 := Zdigits2 m2) in *.
    assert (Hd2 : 1 <= d2) by (subst d2; destruct m2; simpl; lia).
    destruct (Z.leb_spec d2 53) as [Hle | Hgt].
    + rewrite Z.max_l in Hm3, He3 by lia.
      rewrite Z.pow_0_r, Z.div_1_r in Hm3. rewrite Hm3, He3.
      destruct m2 as [| p | p]; try lia.
      replace (e1 + 0 <=? emax - prec) with true
        by (symmetry; apply Z.leb_le; unfold emax, prec; lia).
      apply in_unit_interval_finite. lia.
    + assert (Hm2v : m2 = 2 ^ 53).
      { assert (2 ^ 53 <= 2 ^ (d2 - 1)) by (apply Z.pow_le_mono_r; lia). lia. }
      assert (Hd2v : d2 = 54).
      { subst d2. rewrite Hm2v. reflexivity. }
      rewrite Hd2v in Hm3, He3.
      replace (Z.max 0 (Z.max (54 + e1 - 53) (-1074) - e1)) with 1 in Hm3, He3 by lia.
      rewrite Hm3, He3, Hm2v.
      change (2 ^ 53 / 2 ^ 1) with (Zpos 4503599627370496).
      replace (e1 + 1 <=? emax - prec) with true
        by (symmetry; apply Z.leb_le; unfold emax, prec; lia).
      apply in_unit_interval_finite.
      change (2 ^ 52) with (Zpos 4503599627370496). lia.
Qed.

Lemma div_eucl_eq (a b : Z) : Z.div_eucl a b = (a / b, a mod b).
Proof. unfold Z.div, Z.modulo. now destruct (Z.div_eucl a b). Qed.

Lemma new_location_zero (n : Z) : new_location n 0 = loc_Exact.
Proof. unfold new_location. now destruct (Z.even n). Qed.

Lemma fdiv_self (m : positive) (e : Z) :
  fdiv (S754_finite false m e) (S754_finite false m e) = one.
Proof.
  unfold fdiv, SFdiv, SFdiv_core_binary. cbn [Zdigits2 xorb].
  replace (Zpos (digits2_pos m) + e - (Zpos (digits2_pos m) + e)) with 0 by lia.
  rewrite Z.sub_diag. cbn [fexp Z.min Z.max Z.sub Z.add Z.opp Z.compare emin prec emax Pos.compare Pos.compare_cont Z.pos_sub Pos.pred_double].
  change (Z.min (fexp prec emax 0) 0) with (-53). cbn [Z.sub Z.add Z.opp].
  change (0 - -53) with 53.
  rewrite Z.shiftl_mul_pow2 by lia.
  rewrite div_eucl_eq.
  rewrite Z.mul_comm, Z.div_mul, Z.mod_mul by lia.
  rewrite new_location_zero. reflexivity.
Qed.

Lemma fdiv_core_normal (m1 m2 : positive) (e1 e2 : Z) :
  Zpos (digits2_pos m1) = 53 -> Zpos (digits2_pos m2) = 53 ->
  -52 <= e1 <= 1 -> -52 <= e2 <= 1 ->
  SFdiv_core_binary prec emax (Zpos m1) e1 (Zpos m2) e2 =
  (Zpos m1 * 2 ^ 53 / Zpos m2, e1 - e2 - 53,
   new_location (Zpos m2) ((Zpos m1 * 2 ^ 53) mod Zpos m2)).
Proof.
  intros Hd1 Hd2 He1 He2. unfold SFdiv_core_binary. cbn [Zdigits2].
  rewrite Hd1, Hd2, fexp_eq.
  replace (Z.min (Z.max (53 + e1 - (53 + e2) - 53) (-1074)) (e1 - e2)) with (e1 - e2 - 53) by lia.
  replace (e1 - e2 - (e1 - e2 - 53)) with 53 by lia.
  rewrite Z.shiftl_mul_pow2 by lia. rewrite div_eucl_eq. reflexivity.
Qed.

Lemma fdiv_int_lt (k n : Z) (m1 m2 : positive) (e1 e2 : Z) :
  int_float k m1 e1 -> int_float n m2 e2 -> k < n ->
  in_unit_interval (fdiv (S754_finite false m1 e1) (S754_finite false m2 e2)) = true.
Proof.
  intros (Hd1 & He1 & Hv1) (Hd2 & He2 & Hv2) Hlt.
  unfold fdiv, SFdiv. rewrite fdiv_core_normal by assumption. cbn [xorb].
  pose proof (digits2_pos_spec m1) as [Hlo1 Hhi1]. rewrite Hd1 in Hlo1, Hhi1.
  pose proof (digits2_pos_spec m2) as [Hlo2 Hhi2]. rewrite Hd2 in Hlo2, Hhi2.
  change (2 ^ (53 - 1)) with (2 ^ 52) in *.
  assert (P53 : 2 ^ 53 = 2 * 2 ^ 52) by reflexivity.
  assert (P52 : 0 < 2 ^ 52) by reflexivity.
  set (q := Zpos m1 * 2 ^ 53 / Zpos m2).
  assert (Hq : 2 ^ 52 <= q).
  { apply Z.div_le_lower_bound; [lia |]. nia. }
  assert (Hqd : 53 <= Zdigits2 q).
  { pose proof (Zdigits2_spec q ltac:(lia)) as [_ Hhi].
    destruct (Z.leb_spec 53 (Zdigits2 q)); [assumption | exfalso].
    assert (2 ^ Zdigits2 q <= 2 ^ 52).
    { apply Z.pow_le_mono_r; lia. }
    lia. }
  apply binary_round_aux_lt_one; [assumption |].
  split; [lia |].
  apply Z.div_lt_upper_bound; [lia |].
  replace (- (e1 - e2 - 53)) with (53 + e2 - e1) by lia.
  assert (EA : 2 ^ (53 + e2 - e1) * 2 ^ (e1 + 52) = 2 ^ (e2 + 52) * 2 ^ 53).
  { rewrite <- !Z.pow_add_r by lia. f_equal. lia. }
  assert (HA : 0 < 2 ^ (e1 + 52)) by (apply Z.pow_pos_nonneg; lia).
  set (A := 2 ^ (e1 + 52)) in *. set (B := 2 ^ (53 + e2 - e1)) in *.
  set (C := 2 ^ (e2 + 52)) in *.
  apply Z.mul_lt_mono_pos_r with A; [assumption |].
  replace (Zpos m2 * B * A) with (Zpos m2 * C * 2 ^ 53) by (rewrite <- !Z.mul_assoc, EA; lia).
  replace (Zpos m1 * 2 ^ 53 * A) with (Zpos m1 * A * 2 ^ 53) by lia.
  rewrite Hv1, Hv2. nia.
Qed.


Lemma fdiv_of_int_unit (k n : Z) :
  0 <= k <= n -> 0 < n <= 2 ^ 53 ->
  in_unit_interval (fdiv (of_int k) (of_int n)) = true.
Proof.
  intros Hk Hn.
  destruct (int_float_exists n Hn) as (m2 & e2 & Hif2).
  rewrite (of_int_spec _ _ _ Hif2).
  destruct (Z.eq_dec k 0) as [-> | Hk0]; [reflexivity |].
  destruct (int_float_exists k ltac:(lia)) as (m1 & e1 & Hif1).
  rewrite (of_int_spec _ _ _ Hif1).
  destruct (Z.eq_dec k n) as [-> | Hne].
  - destruct (int_float_unique _ _ _ _ _ Hif1 Hif2) as [-> ->].
    rewrite fdiv_self. reflexivity.
  - apply (fdiv_int_lt k n); [assumption | assumption | lia].
Qed.

(** ** Summing and averaging a boolean array *)

Lemma of_int_zero : of_int 0 = fzero.
Proof. reflexivity. Qed.

Lemma of_int_one : of_int 1 = one.
Proof. reflexivity. Qed.

Lemma fadd_zero_r (k : Z) : 0 <= k <= 2 ^ 53 -> fadd (of_int k) fzero = of_int k.
Proof.
  intros Hk. destruct (Z.eq_dec k 0) as [-> | Hk0]; [reflexivity |].
  destruct (int_float_exists k ltac:(lia)) as (m & e & Hif).
  rewrite (of_int_spec _ _ _ Hif). reflexivity.
Qed.

Lemma fadd_bool (k : Z) (b : bool) :
  0 <= k -> k + (if b then 1 else 0) <= 2 ^ 53 ->
  fadd (of_int k) (of_bool b) = of_int (k + (if b then 1 else 0)).
Proof.
  intros Hk Hb. destruct b; cbn [of_bool].
  - destruct (Z.eq_dec k 0) as [-> | Hk0]; [reflexivity |].
    apply fadd_one_exact. lia.
  - rewrite Z.add_0_r. apply fadd_zero_r. lia.
Qed.

Lemma count_true_cons (b : bool) (bs : list bool) :
  count_true (b :: bs) = (if b then 1 else 0) + count_true bs.
Proof. unfold count_true. destruct b; cbn [filter List.length]; lia. Qed.

Lemma count_true_bounds (bs : list bool) :
  0 <= count_true bs <= Z.of_nat (List.length bs).
Proof.
  unfold count_true. pose proof (filter_length_le (fun b : bool => b) bs). lia.
Qed.

Lemma sum_bool_from (bs : list bool) (k : Z) :
  0 <= k -> k + count_true bs <= 2 ^ 53 ->
  fold_left (fun acc b => fadd acc (of_bool b)) bs (of_int k) = of_int (k + count_true bs).
Proof.
  revert k. induction bs as [| b bs IH]; intros k Hk Hle.
  - cbn [fold_left]. f_equal. unfold count_true. cbn. lia.
  - cbn [fold_left]. rewrite count_true_cons in *.
    pose proof (count_true_bounds bs) as Hc.
    rewrite fadd_bool by (destruct b; lia).
    rewrite IH by (destruct b; lia). f_equal. lia.
Qed.

Lemma np_sum_bool_count (bs : list bool) :
  Z.of_nat (List.length bs) <= 2 ^ 53 -> np_sum_bool bs = of_int (count_true bs).
Proof.
  intros Hlen. unfold np_sum_bool. rewrite <- of_int_zero.
  pose proof (count_true_bounds bs).
  rewrite sum_bool_from by lia. reflexivity.
Qed.

Lemma np_mean_count (bs : list bool) :
  Z.of_nat (List.length bs) <= 2 ^ 53 ->
  np_mean bs = fdiv (of_int (count_true bs)) (of_int (Z.of_nat (List.length bs))).
Proof. intros Hlen. unfold np_mean. now rewrite np_sum_bool_count. Qed.

Lemma np_mean_unit (bs : list bool) :
  0 < Z.of_nat (List.length bs) <= 2 ^ 53 -> in_unit_interval (np_mean bs) = true.
Proof.
  intros Hlen. rewrite np_mean_count by lia.
  apply fdiv_of_int_unit; [apply count_true_bounds | assumption].
Qed.

(** ** Rounding a number in the normal range gives a finite float *)

Lemma binary_round_aux_normal (s : bool) (mx ex : Z) (lx : location) :
  0 < mx -> 53 <= Zdigits2 mx -> -1021 <= Zdigits2 mx + ex <= 1023 ->
  exists m e, binary_round_aux prec emax s mx ex lx = S754_finite s m e.
Proof.
  intros Hpos Hd Hmag.
  pose proof (Zdigits2_spec mx Hpos) as [Hlo Hhi].
  set (d := Zdigits2 mx) in *.
  rewrite binary_round_aux_eq. cbv zeta.
  destruct (shr_fexp_spec mx ex lx ltac:(lia)) as [Hm1 He1].
  fold d in Hm1, He1. rewrite fexp_eq in Hm1, He1.
  replace (Z.max 0 (Z.max (d + ex - 53) (-1074) - ex)) with (d - 53) in Hm1, He1 by lia.
  set (e1 := snd (shr_fexp prec emax mx ex lx)) in *.
  set (m1 := shr_m (fst (shr_fexp prec emax mx ex lx))) in *.
  assert (H2n : 0 < 2 ^ (d - 53)) by (apply Z.pow_pos_nonneg; lia).
  assert (Hsplit : 2 ^ d = 2 ^ (d - 53) * 2 ^ 53).
  { rewrite <- Z.pow_add_r by lia. f_equal. lia. }
  assert (Hsplit' : 2 ^ (d - 1) = 2 ^ (d - 53) * 2 ^ 52).
  { rewrite <- Z.pow_add_r by lia. f_equal. lia. }
  assert (Hm1lo : 2 ^ 52 <= m1).
  { rewrite Hm1. apply Z.div_le_lower_bound; lia. }
  assert (Hm1hi : m1 < 2 ^ 53).
  { rewrite Hm1. apply Z.div_lt_upper_bound; lia. }
  pose proof (round_nearest_even_bounds m1
                (loc_of_shr_record (fst (shr_fexp prec emax mx ex lx)))) as Hm2.
  set (m2 := round_nearest_even m1 _) in *.
  assert (P52 : 0 < 2 ^ 52) by reflexivity.
  assert (P53 : 2 ^ 53 = 2 * 2 ^ 52) by reflexivity.
  destruct (shr_fexp_spec m2 e1 loc_Exact ltac:(lia)) as [Hm3 He3].
  rewrite fexp_eq in Hm3, He3.
  pose proof (Zdigits2_spec m2 ltac:(lia)) as [Hlo2 Hhi2].
  set (d2 := Zdigits2 m2) in *.
  assert (Hd2 : 53 <= d2 <= 54).
  { split.
    - destruct (Z.leb_spec 53 d2); [assumption | exfalso].
      assert (2 ^ d2 <= 2 ^ 52) by (apply Z.pow_le_mono_r; lia). lia.
    - destruct (Z.leb_spec d2 54); [assumption | exfalso].
      assert (2 ^ 54 <= 2 ^ (d2 - 1)) by (apply Z.pow_le_mono_r; lia).
      assert (2 ^ 54 = 4 * 2 ^ 52) by reflexivity. lia. }
  replace (Z.max 0 (Z.max (d2 + e1 - 53) (-1074) - e1)) with (d2 - 53) in Hm3, He3 by lia.
  assert (Hm3pos : 0 < shr_m (fst (shr_fexp prec emax m2 e1 loc_Exact))).
  { rewrite Hm3. apply Z.div_str_pos. split; [apply Z.pow_pos_nonneg; lia |].
    destruct (Z.eq_dec d2 53) as [-> | Hne].
    - change (2 ^ (53 - 53)) with 1. lia.
    - replace d2 with 54 by lia. change (2 ^ (54 - 53)) with 2. lia. }
  destruct (shr_m (fst (shr_fexp prec emax m2 e1 loc_Exact))) as [| m3 | m3]; try lia.
  rewrite He3.
  replace (e1 + (d2 - 53) <=? emax - prec) with true
    by (symmetry; apply Z.leb_le; unfold emax, prec; lia).
  eauto.
Qed.

Lemma of_int_finite (n : Z) :
  0 < n < 2 ^ 64 -> exists m e, of_int n = S754_finite false m e.
Proof.
  intros Hn. destruct (Z.leb_spec n (2 ^ 53)) as [Hle | Hgt].
  - destruct (int_float_exists n ltac:(lia)) as (m & e & Hif).
    exists m, e. now apply of_int_spec.
  - destruct n as [| p | p]; try lia.
    pose proof (digits2_pos_spec p) as [Hlo Hhi].
    assert (Hd : 54 <= Zpos (digits2_pos p) <= 64).
    { split.
      - destruct (Z.leb_spec 54 (Zpos (digits2_pos p))); [assumption | exfalso].
        assert (2 ^ Zpos (digits2_pos p) <= 2 ^ 53) by (apply Z.pow_le_mono_r; lia). lia.
      - destruct (Z.leb_spec (Zpos (digits2_pos p)) 64); [assumption | exfalso].
        assert (2 ^ 64 <= 2 ^ (Zpos (digits2_pos p) - 1)) by (apply Z.pow_le_mono_r; lia).
        lia. }
    unfold of_int, binary_normalize, binary_round.
    destruct (shl_align_spec p 0 (fexp prec emax (Zpos (digits2_pos p) + 0))) as [Hm Hex].
    rewrite fexp_eq in Hm, Hex.
    replace (Z.max 0 (0 - Z.max (Zpos (digits2_pos p) + 0 - 53) (-1074))) with 0 in Hm by lia.
    rewrite Z.min_l in Hex by lia.
    rewrite Z.pow_0_r, Z.mul_1_r in Hm.
    rewrite fexp_eq.
    rewrite (surjective_pairing (shl_align p 0 _)), Hm, Hex.
    apply binary_round_aux_normal; cbn [Zdigits2]; lia.
Qed.

(** ** Arrays: the vectorised expressions, trial by trial *)

Lemma map2_combine {A B C : Type} (f : A -> B -> C) (xs : list A) (ys : list B) :
  map2 f xs ys = map (fun p => f (fst p) (snd p)) (combine xs ys).
Proof.
  revert ys. induction xs as [| x xs IH]; intros [| y ys]; cbn; try reflexivity.
  now rewrite IH.
Qed.

Lemma map2_map_map {A B C D : Type} (f : B -> C -> D) (g : A -> B) (h : A -> C)
    (l : list A) :
  map2 f (map g l) (map h l) = map (fun x => f (g x) (h x)) l.
Proof. induction l as [| x l IH]; cbn; [reflexivity | now rewrite IH]. Qed.

Lemma map_fst_combine_map {A B C : Type} (g : A -> C) (xs : list A) (ys : list B) :
  map (fun p => g (fst p)) (combine xs ys) = map g (firstn (List.length ys) xs).
Proof.
  revert ys. induction xs as [| x xs IH]; intros [| y ys]; cbn; try reflexivity.
  now rewrite IH.
Qed.

Lemma pooled_prob_of_trials (n : Z) (sc st : list Z) :
  pooled_prob_of n sc st =
  map (fun ct => pooled_prob_at n (fst ct) (snd ct)) (combine sc st).
Proof.
  unfold pooled_prob_of, arr_int_div, arr_add, pooled_prob_at.
  rewrite map2_combine, map_map. reflexivity.
Qed.

Lemma pooled_se_of_trials (n : Z) (sc st : list Z) :
  pooled_se_of n (pooled_prob_of n sc st) =
  map (fun ct => pooled_se_at n (pooled_prob_at n (fst ct) (snd ct))) (combine sc st).
Proof.
  rewrite pooled_prob_of_trials.
  unfold pooled_se_of, np_sqrt, arr_div_int, arr_mul, scalar_mul, scalar_sub, pooled_se_at.
  rewrite !map_map, map2_map_map, !map_map. reflexivity.
Qed.

Lemma map2_maps_combine {A B C D E : Type} (f : C -> D -> E) (g : B -> C) (h : A -> D)
    (xs : list A) (ys : list B) :
  map2 f (map g ys) (map h xs) = map (fun p => f (g (snd p)) (h (fst p))) (combine xs ys).
Proof.
  revert ys. induction xs as [| x xs IH]; intros [| y ys]; cbn; try reflexivity.
  now rewrite IH.
Qed.

Lemma z_scores_of_trials (n : Z) (sc st : list Z) :
  z_scores_of n sc st (pooled_se_of n (pooled_prob_of n sc st)) =
  map (fun ct => z_score_at n (fst ct) (snd ct)) (combine sc st).
Proof.
  rewrite pooled_se_of_trials.
  unfold z_scores_of, arr_div, arr_sub, arr_int_div, z_score_at.
  rewrite map2_maps_combine, map2_map_map. reflexivity.
Qed.

Lemma power_of_trials (n : Z) (a : float) (sc st : list Z) :
  power_of n a sc st =
  np_mean (map (fun ct => fgtb (fabs (z_score_at n (fst ct) (snd ct))) (critical_value_of a))
               (combine sc st)).
Proof.
  unfold power_of. cbv zeta. rewrite z_scores_of_trials.
  unfold arr_gt, np_abs. rewrite !map_map. reflexivity.
Qed.

Lemma count_true_map {A : Type} (f : A -> bool) (l : list A) :
  count_true (map f l) = Z.of_nat (List.length (filter f l)).
Proof.
  unfold count_true. induction l as [| x l IH]; cbn; [reflexivity |].
  destruct (f x); cbn [List.length]; lia.
Qed.

(** ** The generator *)

Lemma draws_length (g : G) (n : Z) (p : float) (size : nat) :
  List.length (fst (draws g n p size)) = size.
Proof.
  revert g. induction size as [| k IH]; intros g; cbn [draws]; [reflexivity |].
  destruct (draw_binomial g n p) as [x g1].
  specialize (IH g1). destruct (draws g1 n p k) as [xs g2]. cbn in *. now rewrite IH.
Qed.

Lemma draws_range (g : G) (n : Z) (p : float) (size : nat) :
  0 <= n -> Forall (fun x => 0 <= x <= n) (fst (draws g n p size)).
Proof.
  intros Hn. revert g. induction size as [| k IH]; intros g; cbn [draws]; [constructor |].
  pose proof (draw_range g n p Hn) as Hx.
  destruct (draw_binomial g n p) as [x g1].
  specialize (IH g1). destruct (draws g1 n p k) as [xs g2]. cbn in *.
  constructor; assumption.
Qed.

Lemma np_random_binomial_valid (n : Z) (p : float) (size : Z) (g : G) :
  valid_prob p = true -> 0 <= n -> 0 <= size ->
  np_random_binomial n p size g =
  (Returns (fst (draws g n p (Z.to_nat size))), snd (draws g n p (Z.to_nat size))).
Proof.
  intros Hp Hn Hs. unfold np_random_binomial. rewrite Hp. cbn [negb].
  destruct (Z.ltb_spec n 0); [lia |]. destruct (Z.ltb_spec size 0); [lia |].
  now destruct (draws g n p (Z.to_nat size)).
Qed.


Lemma calculate_power_valid (n : Z) (pc pt a : float) (size : Z) (g : G) :
  valid_prob pc = true -> valid_prob pt = true -> 0 <= n -> 0 <= size ->
  calculate_power n pc pt a size g =
  (Returns (power_of n a (drawn_control g n pc size) (drawn_treatment g n pc pt size)),
   state_after g n pc pt size).
Proof.
  intros Hpc Hpt Hn Hs. unfold calculate_power, bind.
  rewrite np_random_binomial_valid by assumption.
  rewrite np_random_binomial_valid by assumption.
  reflexivity.
Qed.

Lemma calculate_power_invalid (n : Z) (pc pt a : float) (size : Z) (g : G) :
  valid_prob pc && valid_prob pt = false ->
  exists e g', calculate_power n pc pt a size g = (Raises e, g').
Proof.
  intros H. unfold calculate_power, bind, np_random_binomial.
  destruct (valid_prob pc); cbn [negb]; [| eauto].
  destruct (n <? 0); [eauto |]. destruct (size <? 0); [eauto |].
  destruct (draws g n pc (Z.to_nat size)) as [xs g1].
  cbn in H. rewrite H. cbn [negb]. eauto.
Qed.

(** ** int64 arithmetic inside its range *)

Lemma wrap64_small (z : Z) : - 2 ^ 63 <= z <= int64_max -> wrap64 z = z.
Proof.
  unfold wrap64, int64_max. intros Hz.
  assert (E : 2 ^ 64 = 2 * 2 ^ 63) by reflexivity.
  assert (P : 0 < 2 ^ 63) by reflexivity.
  rewrite Z.mod_small by lia. lia.
Qed.

Lemma max_sample_size_double (n : Z) :
  0 <= n <= max_sample_size -> 0 <= 2 * n <= int64_max.
Proof.
  unfold max_sample_size, int64_max.
  assert (E : 2 ^ 63 = 2 * 2 ^ 62) by reflexivity. lia.
Qed.

Lemma pooled_prob_at_spec (n c t : Z) :
  0 <= n <= max_sample_size -> 0 <= c <= n -> 0 <= t <= n ->
  pooled_prob_at n c t = pooled_proportion n c t.
Proof.
  intros Hn Hc Ht. pose proof (max_sample_size_double n Hn) as H2.
  assert (P : 0 < 2 ^ 63) by reflexivity.
  unfold pooled_prob_at, pooled_proportion, int64_add, int64_mul.
  rewrite !wrap64_small by lia. reflexivity.
Qed.

Lemma pooled_se_at_spec (n c t : Z) :
  0 <= n <= max_sample_size -> 0 <= c <= n -> 0 <= t <= n ->
  pooled_se_at n (pooled_prob_at n c t) = pooled_standard_error n c t.
Proof. intros Hn Hc Ht. now rewrite pooled_prob_at_spec. Qed.

Lemma z_score_at_spec (n c t : Z) :
  0 <= n <= max_sample_size -> 0 <= c <= n -> 0 <= t <= n ->
  z_score_at n c t = trial_z_score n c t.
Proof.
  intros Hn Hc Ht. unfold z_score_at, trial_z_score. now rewrite pooled_se_at_spec.
Qed.

(** ** Comparisons *)




Lemma nan_never_exceeds (z c : float) : is_nan z = true -> fgtb (fabs z) c = false.
Proof. destruct z; try discriminate. intros _. now destruct c. Qed.


(** ** The degenerate trial: pooled proportion 0 or 1 *)

Lemma degenerate_trial (n c t : Z) :
  0 < n <= max_sample_size -> 0 <= c <= n -> 0 <= t <= n ->
  c + t = 0 \/ c + t = 2 * n ->
  pooled_standard_error n c t = fzero /\ is_nan (trial_z_score n c t) = true.
Proof.
  intros Hn Hc Ht Hdeg.
  assert (B : max_sample_size < 2 ^ 63) by reflexivity.
  assert (B' : 2 ^ 64 = 2 * 2 ^ 63) by reflexivity.
  destruct (of_int_finite n ltac:(lia)) as (m & e & En).
  destruct (of_int_finite (2 * n) ltac:(lia)) as (m2 & e2 & E2n).
  unfold trial_z_score, pooled_standard_error, pooled_proportion.
  destruct Hdeg as [H0 | H1].
  - replace c with 0 by lia. replace t with 0 by lia. cbn [Z.add].
    rewrite of_int_zero, En, E2n. split; reflexivity.
  - replace c with n by lia. replace t with n by lia.
    replace (n + n) with (2 * n) by lia.
    rewrite En, E2n, !fdiv_self. split; reflexivity.
Qed.

(** ** The estimator *)

Lemma drawn_control_length (g : G) (n : Z) (pc : float) (size : Z) :
  List.length (drawn_control g n pc size) = Z.to_nat size.
Proof. apply draws_length. Qed.

Lemma drawn_treatment_length (g : G) (n : Z) (pc pt : float) (size : Z) :
  List.length (drawn_treatment g n pc pt size) = Z.to_nat size.
Proof. apply draws_length. Qed.

Lemma drawn_trials_length (g : G) (n : Z) (pc pt : float) (size : Z) :
  List.length (combine (drawn_control g n pc size) (drawn_treatment g n pc pt size)) =
  Z.to_nat size.
Proof.
  rewrite length_combine, drawn_control_length, drawn_treatment_length. lia.
Qed.

Lemma drawn_trials_range (g : G) (n : Z) (pc pt : float) (size : Z) (ct : Z * Z) :
  0 <= n ->
  In ct (combine (drawn_control g n pc size) (drawn_treatment g n pc pt size)) ->
  0 <= fst ct <= n /\ 0 <= snd ct <= n.
Proof.
  intros Hn Hin. destruct ct as [c t]. cbn [fst snd].
  pose proof (in_combine_l _ _ _ _ Hin) as Hc.
  pose proof (in_combine_r _ _ _ _ Hin) as Ht.
  pose proof (draws_range g n pc (Z.to_nat size) Hn) as Fc.
  pose proof (draws_range (snd (draws g n pc (Z.to_nat size))) n pt (Z.to_nat size) Hn) as Ft.
  rewrite Forall_forall in Fc, Ft. split; [apply Fc | apply Ft]; assumption.
Qed.

Lemma power_of_unit (n : Z) (a : float) (sc st : list Z) :
  0 < Z.of_nat (List.length (combine sc st)) <= max_repetitions ->
  in_unit_interval (power_of n a sc st) = true.
Proof.
  intros Hlen. rewrite power_of_trials. apply np_mean_unit.
  now rewrite length_map.
Qed.

Lemma nth_error_combine {A B : Type} (xs : list A) (ys : list B) (i : nat) (x : A) (y : B) :
  nth_error xs i = Some x -> nth_error ys i = Some y ->
  nth_error (combine xs ys) i = Some (x, y).
Proof.
  revert ys i. induction xs as [| x' xs IH]; intros [| y' ys] [| i]; cbn;
    try discriminate.
  - intros [= ->] [= ->]. reflexivity.
  - apply IH.
Qed.

(** C1: for a valid call the returned power is the fraction of the simulated
    trials whose absolute z-score, (t/n - c/n) / pooled standard error,
    strictly exceeds the (1 - alpha/2) quantile of the standard normal
    distribution. *)
Theorem estimate_is_fraction_significant
    (n : Z) (p_control p_treatment a : float) (repetitions : Z) (g : G)
    (Hn : 0 < n <= max_sample_size)
    (Hpc : valid_prob p_control = true) (Hpt : valid_prob p_treatment = true)
    (Ha : valid_alpha a = true)
    (Hrep : 0 < repetitions <= max_repetitions) :
  calculate_power n p_control p_treatment a repetitions g =
  (Returns (fraction_significant (norm_ppf (fsub one (fdiv a two))) n
              (drawn_control g n p_control repetitions)
              (drawn_treatment g n p_control p_treatment repetitions)),
   state_after g n p_control p_treatment repetitions).
Proof.
  rewrite calculate_power_valid by (assumption || lia).
  f_equal. f_equal. rewrite power_of_trials. unfold fraction_significant. cbv zeta.
  set (trials := combine _ _).
  assert (Hlen : List.length trials = Z.to_nat repetitions) by apply drawn_trials_length.
  rewrite np_mean_count by (rewrite length_map, Hlen; unfold max_repetitions in Hrep; lia).
  rewrite count_true_map, length_map. do 4 f_equal.
  apply filter_ext_in. intros ct Hin.
  destruct (drawn_trials_range g n p_control p_treatment repetitions ct ltac:(lia) Hin).
  unfold significant, critical_value_of. now rewrite z_score_at_spec by lia.
Qed.

(** C2: in every simulated trial the pooled proportion is
    (control successes + treatment successes) / (2n), and the pooled standard
    error that divides the trial's z-score is
    sqrt(2 * pooled * (1 - pooled) / n). *)
Theorem pooled_proportion_and_standard_error
    (n : Z) (p_control p_treatment : float) (repetitions : Z) (g : G)
    (i : nat) (c t : Z)
    (Hn : 0 < n <= max_sample_size)
    (Hc : nth_error (drawn_control g n p_control repetitions) i = Some c)
    (Ht : nth_error (drawn_treatment g n p_control p_treatment repetitions) i = Some t) :
  let successes_control := drawn_control g n p_control repetitions in
  let successes_treatment := drawn_treatment g n p_control p_treatment repetitions in
  let pooled_prob := pooled_prob_of n successes_control successes_treatment in
  let pooled_se := pooled_se_of n pooled_prob in
  let z_scores := z_scores_of n successes_control successes_treatment pooled_se in
  nth_error pooled_prob i = Some (pooled_proportion n c t) /\
  nth_error pooled_se i = Some (pooled_standard_error n c t) /\
  nth_error z_scores i =
  Some (fdiv (fsub (fdiv (of_int t) (of_int n)) (fdiv (of_int c) (of_int n)))
             (pooled_standard_error n c t)).
Proof.
  cbv zeta.
  pose proof (nth_error_combine _ _ _ _ _ Hc Ht) as Hct.
  pose proof (nth_error_In _ _ Hct) as Hin.
  destruct (drawn_trials_range g n p_control p_treatment repetitions (c, t) ltac:(lia) Hin)
    as [Rc Rt]. cbn [fst snd] in Rc, Rt.
  rewrite z_scores_of_trials, pooled_se_of_trials, pooled_prob_of_trials.
  rewrite !(map_nth_error _ _ _ Hct). cbn [fst snd].
  unfold z_score_at.
  rewrite pooled_se_at_spec, pooled_prob_at_spec by lia.
  repeat split; reflexivity.
Qed.





Lemma degenerate_trial_in_arrays
    (n : Z) (a p_control p_treatment : float) (repetitions : Z) (g : G)
    (i : nat) (c t : Z) :
  0 < n <= max_sample_size ->
  nth_error (drawn_control g n p_control repetitions) i = Some c ->
  nth_error (drawn_treatment g n p_control p_treatment repetitions) i = Some t ->
  c + t = 0 \/ c + t = 2 * n ->
  let successes_control := drawn_control g n p_control repetitions in
  let successes_treatment := drawn_treatment g n p_control p_treatment repetitions in
  let pooled_se := pooled_se_of n (pooled_prob_of n successes_control successes_treatment) in
  let z_scores := z_scores_of n successes_control successes_treatment pooled_se in
  nth_error pooled_se i = Some fzero /\
  (exists z, nth_error z_scores i = Some z /\ is_nan z = true) /\
  nth_error (arr_gt (np_abs z_scores) (critical_value_of a)) i = Some false.
Proof.
  intros Hn Hc Ht Hdeg. cbv zeta.
  pose proof (nth_error_combine _ _ _ _ _ Hc Ht) as Hct.
  pose proof (nth_error_In _ _ Hct) as Hin.
  destruct (drawn_trials_range g n p_control p_treatment repetitions (c, t) ltac:(lia) Hin)
    as [Rc Rt]. cbn [fst snd] in Rc, Rt.
  destruct (degenerate_trial n c t Hn Rc Rt Hdeg) as [Hse Hz].
  rewrite z_scores_of_trials, pooled_se_of_trials.
  unfold arr_gt, np_abs. rewrite !map_map.
  rewrite !(map_nth_error _ _ _ Hct). cbn [fst snd].
  rewrite pooled_se_at_spec, z_score_at_spec, Hse by lia.
  split; [reflexivity | split].
  - eexists. split; [reflexivity | exact Hz].
  - f_equal. now apply nan_never_exceeds.
Qed.

(** C5: a valid call never raises; a trial whose pooled proportion is 0 or 1
    divides by a zero standard error and gets a NaN z-score, not an error. *)
Theorem estimate_never_raises
    (n : Z) (p_control p_treatment a : float) (repetitions : Z) (g : G)
    (Hn : 0 < n <= max_sample_size)
    (Hpc : valid_prob p_control = true) (Hpt : valid_prob p_treatment = true)
    (Ha : valid_alpha a = true)
    (Hrep : 0 < repetitions <= max_repetitions) :
  (exists power g',
     calculate_power n p_control p_treatment a repetitions g = (Returns power, g')) /\
  (forall i c t,
     let successes_control := drawn_control g n p_control repetitions in
     let successes_treatment := drawn_treatment g n p_control p_treatment repetitions in
     let pooled_se :=
       pooled_se_of n (pooled_prob_of n successes_control successes_treatment) in
     nth_error successes_control i = Some c ->
     nth_error successes_treatment i = Some t ->
     c + t = 0 \/ c + t = 2 * n ->
     nth_error pooled_se i = Some fzero /\
     exists z,
       nth_error (z_scores_of n successes_control successes_treatment pooled_se) i = Some z /\
       is_nan z = true).
Proof.
  split.
  - rewrite calculate_power_valid by (assumption || lia). eauto.
  - intros i c t sc st pooled_se Hc Ht Hdeg.
    destruct (degenerate_trial_in_arrays n a p_control p_treatment repetitions g i c t
                Hn Hc Ht Hdeg) as (Hse & Hz & _).
    split; assumption.
Qed.


(** ** The driver loop *)

Lemma loop_fold_spec (estimate : Z -> M float) (sizes : list Z) (s : loop_state) (g : G) :
  fst (fold_left (loop_body estimate) sizes (s, g)) =
  {| results := results s ++ returned_pairs (loop_outcomes estimate sizes g);
     stdout := stdout s ++ reported_lines (loop_outcomes estimate sizes g) |}.
Proof.
  revert s g. induction sizes as [| n rest IH]; intros s g.
  - cbn. rewrite !app_nil_r. now destruct s.
  - cbn [fold_left loop_body loop_outcomes].
    destruct (estimate n g) as [[p | e] g']; rewrite IH; cbn; now rewrite <- !app_assoc.
Qed.

Lemma estimation_loop_spec (estimate : Z -> M float) (sizes : list Z) (g : G) :
  results (fst (estimation_loop estimate sizes g)) =
    returned_pairs (loop_outcomes estimate sizes g) /\
  stdout (fst (estimation_loop estimate sizes g)) =
    reported_lines (loop_outcomes estimate sizes g).
Proof. unfold estimation_loop. rewrite loop_fold_spec. split; reflexivity. Qed.

Lemma loop_outcomes_sizes (estimate : Z -> M float) (sizes : list Z) (g : G) :
  map fst (loop_outcomes estimate sizes g) = sizes.
Proof.
  revert g. induction sizes as [| n rest IH]; intros g; cbn [loop_outcomes map];
    [reflexivity |].
  destruct (estimate n g) as [o g']. cbn [map fst]. now rewrite IH.
Qed.

Lemma returned_pairs_sizes (os : list (Z * outcome float)) :
  map fst (returned_pairs os) =
  map fst (filter (fun no => negb (has_raised (snd no))) os).
Proof.
  unfold returned_pairs.
  induction os as [| [n [p | e]] os IH]; cbn in *; [reflexivity | |]; now rewrite IH.
Qed.


Lemma returned_pairs_none (os : list (Z * outcome float)) :
  forallb (fun no => has_raised (snd no)) os = true -> returned_pairs os = [].
Proof.
  unfold returned_pairs.
  induction os as [| [n [p | e]] os IH]; cbn in *; intros H;
    [reflexivity | discriminate |].
  now apply IH.
Qed.


Lemma loop_outcomes_invalid (pc pt a : float) (size : Z) (sizes : list Z) (g : G) :
  valid_prob pc && valid_prob pt = false ->
  forallb (fun no => has_raised (snd no))
          (loop_outcomes (fun n => calculate_power n pc pt a size) sizes g) = true.
Proof.
  intros Hp. revert g. induction sizes as [| n rest IH]; intros g; [reflexivity |].
  cbn [loop_outcomes].
  destruct (calculate_power_invalid n pc pt a size g Hp) as (e & g' & ->).
  cbn. apply IH.
Qed.

Lemma split_fst_snd {A B : Type} (l : list (A * B)) :
  split l = (map fst l, map snd l).
Proof.
  induction l as [| [a b] l IH]; cbn [split map fst snd]; [reflexivity |].
  now rewrite IH.
Qed.

Lemma sample_sizes_eq :
  sample_sizes =
  [500; 1500; 2500; 3500; 4500; 5500; 6500; 7500; 8500; 9500;
   10500; 11500; 12500; 13500; 14500].
Proof. reflexivity. Qed.

Lemma sample_sizes_nonneg : Forall (fun n => 0 <= n) sample_sizes.
Proof. rewrite sample_sizes_eq. repeat constructor; lia. Qed.

(** C6, at the input where the run fails: with [p_control = 2.0] every
    estimation raises and is reported, the series stays empty, and the
    unpacking of line 62 raises out of the run. *)
Theorem all_estimations_fail_run_raises (p_treatment : float) (g : G) :
  plot_power_analysis two p_treatment g =
  ({| printed :=
        map (fun n => error_message n (ValueError "p < 0, p > 1 or p is NaN"))
            sample_sizes;
      calls := [Figure];
      raised := Some (ValueError "not enough values to unpack (expected 2, got 0)") |},
   g).
Proof. reflexivity. Qed.


(** C9: the fixed parameters are the significance level 0.05, the target
    power 0.8, 10000 repetitions per estimate and the grid 500, 1500, ...,
    14500: steps of 1000 from 500, below 15000, 15 points. *)
Theorem fixed_parameters :
  alpha = fdiv (of_int 5) (of_int 100) /\
  desired_power = fdiv (of_int 8) (of_int 10) /\
  num_simulations = 10000 /\
  sample_sizes =
    [500; 1500; 2500; 3500; 4500; 5500; 6500; 7500; 8500; 9500;
     10500; 11500; 12500; 13500; 14500] /\
  List.length sample_sizes = 15%nat /\
  (forall i, (i < 15)%nat -> nth i sample_sizes 0 = 500 + 1000 * Z.of_nat i) /\
  Forall (fun n => n < 15000) sample_sizes /\
  15000 <= 500 + 1000 * 15.
Proof.
  repeat split; try reflexivity.
  - intros i Hi. do 15 (destruct i as [| i]; [reflexivity |]). lia.
  - rewrite sample_sizes_eq. repeat constructor; lia.
  - lia.
Qed.


(** ** Sign-insensitive facts about float64 operations *)

Lemma fabs_binary_round_aux (s s' : bool) (m e : Z) (l : location) :
  fabs (binary_round_aux prec emax s m e l) = fabs (binary_round_aux prec emax s' m e l).
Proof.
  rewrite !binary_round_aux_eq. cbv zeta.
  destruct (shr_m _) as [| p | p]; try reflexivity.
  now destruct (_ <=? _).
Qed.

Lemma fabs_binary_normalize_opp (z e : Z) :
  fabs (binary_normalize prec emax (- z) e false) =
  fabs (binary_normalize prec emax z e false).
Proof.
  destruct z as [| p | p]; cbn [Z.opp binary_normalize]; try reflexivity;
    unfold binary_round; destruct (shl_align _ _ _) as [mz ez];
    apply fabs_binary_round_aux.
Qed.

Lemma fabs_fdiv_l (x y : float) : fabs (fdiv x y) = fabs (fdiv (fabs x) y).
Proof.
  destruct x as [sx | sx | | sx mx ex], y as [sy | sy | | sy my ey];
    try reflexivity.
  unfold fdiv, fabs. cbn [SFabs SFdiv].
  destruct (SFdiv_core_binary prec emax (Zpos mx) ex (Zpos my) ey) as [[mz ez] lz].
  apply fabs_binary_round_aux.
Qed.

Lemma fabs_fsub_swap (a b : float) : fabs (fsub a b) = fabs (fsub b a).
Proof.
  destruct a as [sa | sa | | sa ma ea], b as [sb | sb | | sb mb eb];
    try (destruct sa, sb; reflexivity); try (destruct sa; reflexivity);
    try (destruct sb; reflexivity); try reflexivity.
  unfold fsub. cbn [SFsub]. rewrite (Z.min_comm eb ea).
  rewrite <- fabs_binary_normalize_opp. do 2 f_equal. lia.
Qed.

Lemma fsub_self (x : float) : fsub x x = fzero \/ fsub x x = S754_nan.
Proof.
  destruct x as [[] | [] | | s m e]; try (now left); try (now right).
  left. unfold fsub. cbn [SFsub]. now rewrite Z.sub_diag.
Qed.

Lemma fdiv_zero_l (y : float) :
  fabs (fdiv fzero y) = fzero \/ fdiv fzero y = S754_nan.
Proof. destruct y as [[] | [] | | [] m e]; try (now left); now right. Qed.

(** A trial with equal success counts has a zero or NaN z-score. *)
Lemma equal_counts_z_score (n c : Z) :
  fabs (z_score_at n c c) = fzero \/ z_score_at n c c = S754_nan.
Proof.
  unfold z_score_at.
  destruct (fsub_self (fdiv (of_int c) (of_int n))) as [-> | ->].
  - apply fdiv_zero_l.
  - right. reflexivity.
Qed.

Lemma z_score_at_swap (n c t : Z) : fabs (z_score_at n c t) = fabs (z_score_at n t c).
Proof.
  unfold z_score_at, pooled_prob_at, int64_add.
  rewrite (Z.add_comm t c).
  rewrite fabs_fdiv_l, (fabs_fdiv_l (fsub (fdiv (of_int c) (of_int n)) _)).
  now rewrite fabs_fsub_swap.
Qed.

(** ** Further behaviour of the estimator *)




Lemma zero_or_nan_not_significant (z c : float) :
  fabs z = fzero \/ z = S754_nan -> fltb c fzero = false -> fgtb (fabs z) c = false.
Proof.
  intros [Hz | ->] Hc.
  - rewrite Hz. exact Hc.
  - now destruct c.
Qed.

(** X4: a trial in which both groups have the same number of successes is
    never counted as significant, whatever the sample size, as long as the
    critical value is not negative. *)
Theorem equal_counts_not_significant
    (n : Z) (a : float) (successes_control successes_treatment : list Z)
    (i : nat) (c : Z)
    (Hcrit : fltb (critical_value_of a) fzero = false)
    (Hc : nth_error successes_control i = Some c)
    (Ht : nth_error successes_treatment i = Some c) :
  let pooled_se :=
    pooled_se_of n (pooled_prob_of n successes_control successes_treatment) in
  let z_scores := z_scores_of n successes_control successes_treatment pooled_se in
  nth_error (arr_gt (np_abs z_scores) (critical_value_of a)) i = Some false.
Proof.
  cbv zeta. pose proof (nth_error_combine _ _ _ _ _ Hc Ht) as Hct.
  rewrite z_scores_of_trials. unfold arr_gt, np_abs. rewrite !map_map.
  rewrite (map_nth_error _ _ _ Hct). cbn [fst snd]. f_equal.
  apply zero_or_nan_not_significant; [apply equal_counts_z_score | exact Hcrit].
Qed.

Lemma np_mean_all_false (bs : list bool) :
  0 < Z.of_nat (List.length bs) <= 2 ^ 53 ->
  Forall (fun b => b = false) bs -> np_mean bs = fzero.
Proof.
  intros Hlen Hall. rewrite np_mean_count by lia.
  assert (Hcount : count_true bs = 0).
  { unfold count_true. clear Hlen.
    induction Hall as [| b bs -> _ IH]; [reflexivity | exact IH]. }
  rewrite Hcount, of_int_zero.
  destruct (int_float_exists (Z.of_nat (List.length bs)) Hlen) as (m & e & Hif).
  rewrite (of_int_spec _ _ _ Hif). reflexivity.
Qed.

Lemma combine_swap {A B C : Type} (f : B * A -> C) (xs : list A) (ys : list B) :
  map f (combine ys xs) = map (fun p => f (snd p, fst p)) (combine xs ys).
Proof.
  revert ys. induction xs as [| x xs IH]; intros [| y ys]; cbn; try reflexivity.
  now rewrite IH.
Qed.

(** X5: the estimate is symmetric in the two groups: exchanging the control
    and the treatment samples does not change the estimated power. *)
Theorem power_of_swap (n : Z) (a : float) (sc st : list Z) :
  power_of n a st sc = power_of n a sc st.
Proof.
  rewrite !power_of_trials. f_equal. rewrite combine_swap. cbn [fst snd].
  apply map_ext. intros [c t]. cbn [fst snd]. now rewrite z_score_at_swap.
Qed.

(** X6: when the critical value is NaN or +infinity (the quantile function
    applied outside its domain, or at 1.0) no trial is significant and the
    estimated power is exactly 0, not NaN and not an error. *)
Theorem degenerate_critical_value_gives_zero
    (n : Z) (a : float) (sc st : list Z)
    (Hcrit : is_nan (critical_value_of a) = true \/
             critical_value_of a = S754_infinity false)
    (Hlen : 0 < Z.of_nat (List.length (combine sc st)) <= max_repetitions) :
  power_of n a sc st = fzero.
Proof.
  rewrite power_of_trials. apply np_mean_all_false.
  - now rewrite length_map.
  - apply Forall_forall. intros b Hb. apply in_map_iff in Hb as (ct & <- & _).
    destruct Hcrit as [Hnan | ->].
    + destruct (critical_value_of a); try discriminate.
      now destruct (fabs _).
    + now destruct (fabs _) as [[] | [] | | []].
Qed.

Lemma fsqrt_not_negative (x : float) : fltb (fsqrt x) fzero = false.
Proof.
  destruct x as [[] | [] | | [] m e]; try reflexivity.
  unfold fsqrt. cbn [SFsqrt].
  destruct (SFsqrt_core_binary prec emax (Zpos m) e) as [[mz ez] lz].
  rewrite binary_round_aux_eq. cbv zeta.
  destruct (shr_m _) as [| p | p]; try reflexivity.
  now destruct (_ <=? _).
Qed.

(** X7: no pooled standard error is negative: every element of the array of
    line 32 is NaN or at least zero, for any counts and any sample size. *)
Theorem pooled_se_never_negative (n : Z) (pooled_prob : list float) :
  Forall (fun se => fltb se fzero = false) (pooled_se_of n pooled_prob).
Proof.
  unfold pooled_se_of, np_sqrt. apply Forall_forall. intros se Hse.
  apply in_map_iff in Hse as (x & <- & _). apply fsqrt_not_negative.
Qed.

(** ** Further behaviour of the driver *)

Lemma loop_outcomes_length (estimate : Z -> M float) (sizes : list Z) (g : G) :
  List.length (loop_outcomes estimate sizes g) = List.length sizes.
Proof. rewrite <- (loop_outcomes_sizes estimate sizes g) at 2. now rewrite length_map. Qed.

Lemma kept_and_reported_lengths (os : list (Z * outcome float)) :
  (List.length (returned_pairs os) + List.length (reported_lines os))%nat =
  List.length os.
Proof.
  unfold returned_pairs, reported_lines.
  induction os as [| [n [p | e]] os IH];
    cbn [flat_map app List.length fst snd]; lia.
Qed.

Lemma reported_lines_shape (os : list (Z * outcome float)) (line : string) :
  In line (reported_lines os) ->
  exists n e, In (n, Raises e) os /\
    line = ("Error calculating power for sample size " ++ str_int n ++ ": "
            ++ exn_text e)%string.
Proof.
  unfold reported_lines. intros Hin. apply in_flat_map in Hin as ([n o] & Hno & Hl).
  destruct o as [p | e]; cbn in Hl; [contradiction |].
  destruct Hl as [<- | []]. exists n, e. split; [assumption | reflexivity].
Qed.

(** X8: whatever the estimations do, the loop accounts for every candidate
    size exactly once: the number of collected pairs plus the number of
    printed error lines is the number of sizes, every collected pair carries
    a size of the grid, and every printed line is the fixed prefix followed
    by a size of the grid, a colon and the text of an exception raised for
    that size. *)
Theorem loop_accounts_for_every_size
    (estimate : Z -> M float) (sizes : list Z) (g : G) :
  let s := fst (estimation_loop estimate sizes g) in
  (List.length (results s) + List.length (stdout s))%nat = List.length sizes /\
  (forall n p, In (n, p) (results s) -> In n sizes) /\
  (forall line, In line (stdout s) ->
     exists n e, In n sizes /\
       line = ("Error calculating power for sample size " ++ str_int n ++ ": "
               ++ exn_text e)%string).
Proof.
  cbv zeta. destruct (estimation_loop_spec estimate sizes g) as [-> ->].
  split; [| split].
  - rewrite kept_and_reported_lengths. apply loop_outcomes_length.
  - intros n p Hin. rewrite <- (loop_outcomes_sizes estimate sizes g).
    pose proof (in_map fst _ _ Hin) as Hn. cbn [fst] in Hn.
    rewrite returned_pairs_sizes in Hn.
    apply in_map_iff in Hn as (no & <- & Hno). apply filter_In in Hno as [Hno _].
    now apply in_map.
  - intros line Hin. apply reported_lines_shape in Hin as (n & e & Hne & ->).
    exists n, e. split; [| reflexivity].
    rewrite <- (loop_outcomes_sizes estimate sizes g).
    apply (in_map fst _ _ Hne).
Qed.

Lemma returned_pairs_nil_iff (os : list (Z * outcome float)) :
  returned_pairs os = [] <->
  existsb (fun no => negb (has_raised (snd no))) os = false.
Proof.
  unfold returned_pairs.
  induction os as [| [n [p | e]] os IH]; cbn in *; [tauto | | exact IH].
  split; discriminate.
Qed.

(** X9: a run raises if and only if no estimation returned (in particular
    for an empty grid): the exception is the [ValueError] of the unpacking
    at line 62, raised after the figure was created and before anything is
    plotted; as soon as one estimation returned, the run ends without an
    exception and shows the chart. *)
Theorem run_raises_iff_no_estimation_returned
    (estimate : Z -> M float) (sizes : list Z) (g : G) :
  let r := fst (driver estimate sizes g) in
  let returned :=
    existsb (fun no => negb (has_raised (snd no))) (loop_outcomes estimate sizes g) in
  (returned = false ->
   raised r = Some (ValueError "not enough values to unpack (expected 2, got 0)") /\
   calls r = [Figure]) /\
  (returned = true -> raised r = None /\ last (calls r) Figure = Show).
Proof.
  cbv zeta. unfold driver.
  destruct (estimation_loop_spec estimate sizes g) as [Hres _].
  destruct (estimation_loop estimate sizes g) as [s g']. cbn [fst] in *.
  unfold render, unzip_pair. split; intros Hret.
  - apply returned_pairs_nil_iff in Hret. rewrite Hres, Hret. split; reflexivity.
  - destruct (results s) as [| r rs] eqn:Hrs.
    + symmetry in Hres. apply returned_pairs_nil_iff in Hres. congruence.
    + rewrite split_fst_snd. cbn [raised calls]. split; [reflexivity |].
      rewrite !app_assoc. apply last_last.
Qed.

Lemma slider_range_valid (p : float) :
  in_slider_range p_control_slider p = true -> valid_prob p = true.
Proof.
  unfold in_slider_range, valid_prob, fleb, SFleb, fzero, one.
  cbn [slider_min slider_max p_control_slider].
  destruct p as [[] | [] | | [] m e]; cbn [SFcompare andb]; try discriminate;
    try reflexivity.
  intros H. apply andb_prop in H as [_ H].
  destruct (Z.compare_spec e (-56)) as [He | He | He]; try discriminate.
  - subst e. reflexivity.
  - destruct (Z.compare_spec e (-52)); try reflexivity; lia.
Qed.

Lemma valid_loop_series (pc pt a : float) (size : Z) (sizes : list Z) (g : G) :
  valid_prob pc = true -> valid_prob pt = true -> 0 < size <= max_repetitions ->
  Forall (fun n => 0 <= n) sizes ->
  let os := loop_outcomes (fun n => calculate_power n pc pt a size) sizes g in
  exists powers,
    returned_pairs os = combine sizes powers /\
    List.length powers = List.length sizes /\
    Forall (fun p => in_unit_interval p = true) powers /\
    reported_lines os = [].
Proof.
  intros Hpc Hpt Hs Hsizes. cbv zeta. revert g.
  induction Hsizes as [| n rest Hn _ IH]; intros g.
  - exists []. repeat split; constructor.
  - cbn [loop_outcomes]. rewrite calculate_power_valid by (assumption || lia).
    destruct (IH (state_after g n pc pt size)) as (powers & Hret & Hlen & Hall & Hrep).
    exists (power_of n a (drawn_control g n pc size) (drawn_treatment g n pc pt size)
            :: powers).
    unfold returned_pairs, reported_lines in *.
    cbn [flat_map app fst snd combine List.length].
    rewrite Hret, Hrep, Hlen. repeat split.
    constructor; [| assumption].
    apply power_of_unit. rewrite drawn_trials_length. lia.
Qed.

(** X10: for probabilities inside the slider range [0.01, 0.10] a run never
    raises and prints nothing; it draws one figure, plots the 15 grid sizes
    against 15 powers that all lie in [0,1], draws the target line at
    [desired_power], annotates every point in grid order and shows the
    chart. *)
Theorem slider_run_plots_full_grid (p_control p_treatment : float) (g : G)
    (Hpc : in_slider_range p_control_slider p_control = true)
    (Hpt : in_slider_range p_treatment_slider p_treatment = true) :
  exists powers,
    let r := fst (plot_power_analysis p_control p_treatment g) in
    raised r = None /\ printed r = [] /\
    List.length powers = 15%nat /\
    Forall (fun p => in_unit_interval p = true) powers /\
    calls r =
      [Figure; Plot sample_sizes powers; Axhline desired_power; Decorate]
      ++ map (fun np => Annotate (fst np) (snd np)) (combine sample_sizes powers)
      ++ [Show].
Proof.
  apply slider_range_valid in Hpc. apply (slider_range_valid p_treatment) in Hpt.
  destruct (valid_loop_series p_control p_treatment alpha num_simulations sample_sizes g
              Hpc Hpt ltac:(unfold num_simulations, max_repetitions; lia)
              sample_sizes_nonneg) as (powers & Hret & Hlen & Hall & Hrep).
  exists powers. cbv zeta. unfold plot_power_analysis, driver.
  destruct (estimation_loop_spec
              (fun n => calculate_power n p_control p_treatment alpha num_simulations)
              sample_sizes g) as [Hres Hout].
  destruct (estimation_loop _ sample_sizes g) as [s g']. cbn [fst] in *.
  rewrite Hret in Hres. rewrite Hrep in Hout.
  unfold render, unzip_pair. rewrite Hout, Hres.
  destruct (combine sample_sizes powers) as [| r rs] eqn:Hcomb.
  - exfalso. destruct powers; [discriminate Hlen |].
    rewrite sample_sizes_eq in Hcomb. discriminate.
  - rewrite <- Hcomb. rewrite combine_split by (symmetry; exact Hlen).
    cbn [raised printed calls]. repeat split; assumption.
Qed.

(** ** A zero estimate *)

Lemma fdiv_int_finite (k n : Z) (m1 m2 : positive) (e1 e2 : Z) :
  int_float k m1 e1 -> int_float n m2 e2 ->
  exists m e, fdiv (S754_finite false m1 e1) (S754_finite false m2 e2) =
              S754_finite false m e.
Proof.
  intros (Hd1 & He1 & _) (Hd2 & He2 & _).
  unfold fdiv, SFdiv. rewrite fdiv_core_normal by assumption. cbn [xorb].
  pose proof (digits2_pos_spec m1) as [Hlo1 Hhi1]. rewrite Hd1 in Hlo1, Hhi1.
  pose proof (digits2_pos_spec m2) as [Hlo2 Hhi2]. rewrite Hd2 in Hlo2, Hhi2.
  change (2 ^ (53 - 1)) with (2 ^ 52) in *.
  assert (P53 : 2 ^ 53 = 2 * 2 ^ 52) by reflexivity.
  assert (P52 : 0 < 2 ^ 52) by reflexivity.
  assert (P106 : 2 ^ 106 = 2 ^ 53 * 2 ^ 53) by reflexivity.
  set (q := Zpos m1 * 2 ^ 53 / Zpos m2).
  assert (Hq : 2 ^ 52 <= q).
  { apply Z.div_le_lower_bound; [lia |]. nia. }
  assert (Hq' : q < 2 ^ 106).
  { apply Z.div_lt_upper_bound; [lia |]. nia. }
  pose proof (Zdigits2_spec q ltac:(lia)) as [Hdlo Hdhi].
  assert (Hqd : 53 <= Zdigits2 q <= 106).
  { split.
    - destruct (Z.leb_spec 53 (Zdigits2 q)); [assumption | exfalso].
      assert (2 ^ Zdigits2 q <= 2 ^ 52) by (apply Z.pow_le_mono_r; lia). lia.
    - destruct (Z.leb_spec (Zdigits2 q) 106); [assumption | exfalso].
      assert (2 ^ 106 <= 2 ^ (Zdigits2 q - 1)) by (apply Z.pow_le_mono_r; lia). lia. }
  apply binary_round_aux_normal; lia.
Qed.

Lemma fdiv_of_int_zero_iff (k n : Z) :
  0 <= k -> 0 < n <= 2 ^ 53 -> k <= 2 ^ 53 ->
  fdiv (of_int k) (of_int n) = fzero <-> k = 0.
Proof.
  intros Hk Hn Hk'.
  destruct (int_float_exists n Hn) as (m2 & e2 & Hif2).
  rewrite (of_int_spec _ _ _ Hif2). split.
  - intros Hz. destruct (Z.eq_dec k 0) as [-> | Hk0]; [reflexivity | exfalso].
    destruct (int_float_exists k ltac:(lia)) as (m1 & e1 & Hif1).
    rewrite (of_int_spec _ _ _ Hif1) in Hz.
    destruct (fdiv_int_finite k n m1 m2 e1 e2 Hif1 Hif2) as (m & e & Hfin).
    rewrite Hfin in Hz. discriminate.
  - intros ->. reflexivity.
Qed.

Lemma count_true_zero_iff (bs : list bool) :
  count_true bs = 0 <-> Forall (fun b => b = false) bs.
Proof.
  unfold count_true. induction bs as [| b bs IH].
  - split; [constructor | reflexivity].
  - destruct b; cbn [filter List.length].
    + split; [lia | intros H; inversion H; discriminate].
    + rewrite IH. split; [now constructor | intros H; now inversion H].
Qed.

(** X11: a single significant trial is never rounded away: the estimated
    power is exactly 0 if and only if no simulated trial was significant. *)
Theorem zero_power_iff_no_significant_trial
    (n : Z) (a : float) (sc st : list Z)
    (Hlen : 0 < Z.of_nat (List.length (combine sc st)) <= max_repetitions) :
  power_of n a sc st = fzero <->
  Forall (fun ct => fgtb (fabs (z_score_at n (fst ct) (snd ct))) (critical_value_of a)
                    = false)
         (combine sc st).
Proof.
  rewrite power_of_trials.
  set (bs := map _ (combine sc st)).
  assert (Hbs : List.length bs = List.length (combine sc st)) by apply length_map.
  unfold max_repetitions in Hlen.
  pose proof (count_true_bounds bs) as Hc.
  rewrite np_mean_count by lia.
  rewrite fdiv_of_int_zero_iff by lia.
  rewrite count_true_zero_iff. subst bs. rewrite Forall_map. reflexivity.
Qed.

(** ** An estimate of one *)

Lemma binary_round_aux_below_one (mx ex : Z) (lx : location) :
  0 < mx -> 53 <= Zdigits2 mx -> -1074 <= Zdigits2 mx + ex - 53 ->
  mx + 2 ^ (Zdigits2 mx - 53) < 2 ^ (- ex) ->
  binary_round_aux prec emax false mx ex lx <> one.
Proof.
  intros Hpos Hd Hmin Hlt.
  pose proof (Zdigits2_spec mx Hpos) as [Hlo Hhi].
  set (d := Zdigits2 mx) in *.
  assert (H2n : 0 < 2 ^ (d - 53)) by (apply Z.pow_pos_nonneg; lia).
  assert (Hex : d - 53 <= - ex).
  { destruct (Z.leb_spec (d - 53) (- ex)); [assumption | exfalso].
    destruct (Z.ltb_spec (- ex) 0).
    - rewrite (Z.pow_neg_r 2 (- ex)) in Hlt by assumption. lia.
    - assert (2 ^ (- ex) <= 2 ^ (d - 53)) by (apply Z.pow_le_mono_r; lia). lia. }
  rewrite binary_round_aux_eq. cbv zeta.
  destruct (shr_fexp_spec mx ex lx ltac:(lia)) as [Hm1 He1].
  fold d in Hm1, He1. rewrite fexp_eq in Hm1, He1.
  replace (Z.max 0 (Z.max (d + ex - 53) (-1074) - ex)) with (d - 53) in Hm1, He1 by lia.
  set (e1 := snd (shr_fexp prec emax mx ex lx)) in *.
  set (m1 := shr_m (fst (shr_fexp prec emax mx ex lx))) in *.
  assert (Hsplit : 2 ^ (- ex) = 2 ^ (- e1) * 2 ^ (d - 53)).
  { rewrite <- Z.pow_add_r by lia. f_equal. lia. }
  assert (HB : 0 < 2 ^ (- e1)) by (apply Z.pow_pos_nonneg; lia).
  assert (Hm1nn : 0 <= m1) by (rewrite Hm1; apply Z.div_pos; lia).
  assert (Hm1e : m1 + 1 < 2 ^ (- e1)).
  { assert (m1 < 2 ^ (- e1) - 1); [| lia].
    rewrite Hm1. apply Z.div_lt_upper_bound; [assumption |]. nia. }
  assert (Hm1p : m1 < 2 ^ 53).
  { rewrite Hm1. apply Z.div_lt_upper_bound; [assumption |].
    rewrite <- Z.pow_add_r by lia. replace (d - 53 + 53) with d by lia. assumption. }
  pose proof (round_nearest_even_bounds m1
                (loc_of_shr_record (fst (shr_fexp prec emax mx ex lx)))) as Hm2.
  set (m2 := round_nearest_even m1 _) in *.
  destruct (shr_fexp_spec m2 e1 loc_Exact ltac:(lia)) as [Hm3 He3].
  rewrite fexp_eq in Hm3, He3.
  destruct (Z.eq_dec m2 0) as [Hz | Hnz].
  - rewrite Hm3, Hz, Z.div_0_l by (apply Z.pow_nonzero; lia). discriminate.
  - pose proof (Zdigits2_spec m2 ltac:(lia)) as [Hlo2 Hhi2].
    set (d2 := Zdigits2 m2) in *.
    assert (Hd2 : 1 <= d2) by (subst d2; destruct m2; simpl; lia).
    assert (P52 : 0 < 2 ^ 52) by reflexivity.
    assert (P53 : 2 ^ 53 = 2 * 2 ^ 52) by reflexivity.
    destruct (Z.leb_spec d2 53) as [Hle | Hgt].
    + replace (Z.max 0 (Z.max (d2 + e1 - 53) (-1074) - e1)) with 0 in Hm3, He3 by lia.
      rewrite Z.pow_0_r, Z.div_1_r in Hm3. rewrite Hm3, He3.
      destruct m2 as [| p | p]; try lia.
      destruct (e1 + 0 <=? emax - prec); [| discriminate].
      unfold one. intros [= Hp He]. replace e1 with (-52) in * by lia.
      change (2 ^ (- -52)) with (2 ^ 52) in Hm1e.
      change (2 ^ 52) with (Zpos 4503599627370496) in Hm1e. lia.
    + assert (Hm2v : m2 = 2 ^ 53).
      { assert (2 ^ 53 <= 2 ^ (d2 - 1)) by (apply Z.pow_le_mono_r; lia). lia. }
      assert (Hd2v : d2 = 54) by (subst d2; rewrite Hm2v; reflexivity).
      rewrite Hd2v in Hm3, He3.
      replace (Z.max 0 (Z.max (54 + e1 - 53) (-1074) - e1)) with 1 in Hm3, He3 by lia.
      rewrite Hm3, He3, Hm2v.
      change (2 ^ 53 / 2 ^ 1) with (Zpos 4503599627370496).
      destruct (e1 + 1 <=? emax - prec); [| discriminate].
      unfold one. intros [= He]. replace e1 with (-53) in * by lia.
      change (2 ^ (- -53)) with (2 ^ 53) in Hm1e. lia.
Qed.

Lemma fdiv_int_below_one (k n : Z) (m1 m2 : positive) (e1 e2 : Z) :
  int_float k m1 e1 -> int_float n m2 e2 -> 0 < k < n -> n < 2 ^ 53 ->
  fdiv (S754_finite false m1 e1) (S754_finite false m2 e2) <> one.
Proof.
  intros (Hd1 & He1 & Hv1) (Hd2 & He2 & Hv2) Hk Hn.
  unfold fdiv, SFdiv. rewrite fdiv_core_normal by assumption. cbn [xorb].
  pose proof (digits2_pos_spec m1) as [Hlo1 Hhi1]. rewrite Hd1 in Hlo1, Hhi1.
  pose proof (digits2_pos_spec m2) as [Hlo2 Hhi2]. rewrite Hd2 in Hlo2, Hhi2.
  change (2 ^ (53 - 1)) with (2 ^ 52) in *.
  assert (P53 : 2 ^ 53 = 2 * 2 ^ 52) by reflexivity.
  assert (P52 : 0 < 2 ^ 52) by reflexivity.
  assert (P106 : 2 ^ 106 = 2 ^ 53 * 2 ^ 53) by reflexivity.
  set (q := Zpos m1 * 2 ^ 53 / Zpos m2).
  assert (Hq : 2 ^ 52 <= q).
  { apply Z.div_le_lower_bound; [lia |]. nia. }
  assert (Hqm : q * Zpos m2 <= Zpos m1 * 2 ^ 53).
  { subst q. rewrite Z.mul_comm. apply Z.mul_div_le. lia. }
  pose proof (Zdigits2_spec q ltac:(lia)) as [Hdlo Hdhi].
  set (d := Zdigits2 q) in *.
  assert (Hqd : 53 <= d).
  { destruct (Z.leb_spec 53 d); [assumption | exfalso].
    assert (2 ^ d <= 2 ^ 52) by (apply Z.pow_le_mono_r; lia). lia. }
  set (t := 53 + e2 - e1).
  assert (EA : 2 ^ t * 2 ^ (e1 + 52) = 2 ^ (e2 + 52) * 2 ^ 53).
  { subst t. rewrite <- !Z.pow_add_r by lia. f_equal. lia. }
  assert (HA : 0 < 2 ^ (e1 + 52)) by (apply Z.pow_pos_nonneg; lia).
  assert (HC : 0 < 2 ^ (e2 + 52)) by (apply Z.pow_pos_nonneg; lia).
  assert (HT : 0 < 2 ^ t) by (apply Z.pow_pos_nonneg; subst t; lia).
  set (A := 2 ^ (e1 + 52)) in *. set (C := 2 ^ (e2 + 52)) in *. set (T := 2 ^ t) in *.
  assert (HqN : q * n <= k * T).
  { apply Z.mul_le_mono_pos_r with (2 ^ 52 * A); [lia |].
    replace (q * n * (2 ^ 52 * A)) with (q * (n * 2 ^ 52) * A) by lia.
    rewrite <- Hv2.
    replace (k * T * (2 ^ 52 * A)) with (k * 2 ^ 52 * (T * A)) by lia.
    rewrite <- Hv1, EA.
    replace (q * (Zpos m2 * C) * A) with (q * Zpos m2 * (C * A)) by lia.
    replace (Zpos m1 * A * (C * 2 ^ 53)) with (Zpos m1 * 2 ^ 53 * (C * A)) by lia.
    apply Z.mul_le_mono_nonneg_r; lia. }
  assert (HqT : q < T).
  { destruct (Z.ltb_spec q T); [assumption | exfalso]. nia. }
  assert (Hdt : d <= t).
  { destruct (Z.leb_spec d t); [assumption | exfalso].
    assert (2 ^ t <= 2 ^ (d - 1)) by (apply Z.pow_le_mono_r; subst t; lia).
    fold T in H0. lia. }
  assert (Hu : 0 < 2 ^ (d - 53)) by (apply Z.pow_pos_nonneg; lia).
  assert (HuT : 2 ^ (d - 53) * 2 ^ 53 <= T).
  { rewrite <- Z.pow_add_r by lia. replace (d - 53 + 53) with d by lia.
    subst T. apply Z.pow_le_mono_r; lia. }
  apply binary_round_aux_below_one; try lia.
  replace (- (e1 - e2 - 53)) with t by (subst t; lia). fold d. fold T.
  set (u := 2 ^ (d - 53)) in *.
  destruct (Z.ltb_spec (q + u) T); [assumption | exfalso].
  assert (u * n >= T * (n - k)) by nia.
  assert (T * (n - k) >= T) by nia.
  nia.
Qed.

Lemma fdiv_int_top_below_one (k : Z) (m1 : positive) (e1 : Z) :
  int_float k m1 e1 -> 0 < k < 2 ^ 53 ->
  fdiv (S754_finite false m1 e1) (S754_finite false 4503599627370496 1) <> one.
Proof.
  intros Hif Hk. pose proof Hif as (Hd1 & He1 & Hv1).
  assert (Hif2 : int_float (2 ^ 53) 4503599627370496 1)
    by (repeat split; try reflexivity; lia).
  unfold fdiv, SFdiv. rewrite fdiv_core_normal; try assumption; try lia; try reflexivity.
  cbn [xorb].
  change (Zpos 4503599627370496) with (2 ^ 52).
  replace (Zpos m1 * 2 ^ 53) with (Zpos m1 * 2 * 2 ^ 52)
    by (change (2 ^ 53) with (2 * 2 ^ 52); lia).
  rewrite Z.div_mul, Z.mod_mul by (apply Z.pow_nonzero; lia).
  rewrite new_location_zero.
  replace (Zpos m1 * 2) with (Zpos m1 * 2 ^ 1) by (change (2 ^ 1) with 2; lia).
  replace (e1 - 1 - 53) with (e1 - 53 - 1) by lia.
  rewrite binary_round_aux_exact.
  - unfold one. intros [= Hm He]. replace e1 with 1 in * by lia.
    change (2 ^ (1 + 52)) with (2 * 2 ^ 52) in Hv1.
    change (2 ^ 53) with (2 * 2 ^ 52) in Hk.
    assert (0 < 2 ^ 52) by reflexivity.
    change (2 ^ 52) with (Zpos 4503599627370496) in *. lia.
  - unfold canonical_mantissa. rewrite Hd1, fexp_eq. apply Z.eqb_eq. lia.
  - unfold emax, prec. lia.
  - lia.
Qed.

Lemma fdiv_of_int_one_iff (k n : Z) :
  0 <= k <= n -> 0 < n <= 2 ^ 53 ->
  fdiv (of_int k) (of_int n) = one <-> k = n.
Proof.
  intros Hk Hn.
  destruct (int_float_exists n Hn) as (m2 & e2 & Hif2).
  rewrite (of_int_spec _ _ _ Hif2). split.
  - intros H1. destruct (Z.eq_dec k n) as [-> | Hne]; [reflexivity | exfalso].
    destruct (Z.eq_dec k 0) as [-> | Hk0]; [discriminate |].
    destruct (int_float_exists k ltac:(lia)) as (m1 & e1 & Hif1).
    rewrite (of_int_spec _ _ _ Hif1) in H1.
    destruct (Z.eq_dec n (2 ^ 53)) as [-> | Hn53].
    + assert (Hif3 : int_float (2 ^ 53) 4503599627370496 1)
        by (repeat split; try reflexivity; lia).
      destruct (int_float_unique _ _ _ _ _ Hif2 Hif3) as [-> ->].
      apply (fdiv_int_top_below_one k m1 e1 Hif1 ltac:(lia)). exact H1.
    + apply (fdiv_int_below_one k n m1 m2 e1 e2 Hif1 Hif2 ltac:(lia) ltac:(lia)).
      exact H1.
  - intros ->. rewrite (of_int_spec _ _ _ Hif2). apply fdiv_self.
Qed.

Lemma count_true_all_iff (bs : list bool) :
  count_true bs = Z.of_nat (List.length bs) <-> Forall (fun b => b = true) bs.
Proof.
  unfold count_true. induction bs as [| b bs IH].
  - split; [constructor | reflexivity].
  - pose proof (filter_length_le (fun b : bool => b) bs) as Hle.
    destruct b; cbn [filter List.length].
    + split.
      * intros H. constructor; [reflexivity | apply IH; lia].
      * intros H. inversion H as [| ? ? _ Hbs]; subst. apply IH in Hbs. lia.
    + split; [lia | intros H; inversion H; discriminate].
Qed.

(** X12: the estimated power is exactly 1 if and only if every simulated
    trial was significant: a single non-significant trial keeps the float64
    quotient below 1. *)
Theorem unit_power_iff_every_trial_significant
    (n : Z) (a : float) (sc st : list Z)
    (Hlen : 0 < Z.of_nat (List.length (combine sc st)) <= max_repetitions) :
  power_of n a sc st = one <->
  Forall (fun ct => fgtb (fabs (z_score_at n (fst ct) (snd ct))) (critical_value_of a)
                    = true)
         (combine sc st).
Proof.
  rewrite power_of_trials.
  set (bs := map _ (combine sc st)).
  assert (Hbs : List.length bs = List.length (combine sc st)) by apply length_map.
  unfold max_repetitions in Hlen.
  pose proof (count_true_bounds bs) as Hc.
  rewrite np_mean_count by lia.
  rewrite fdiv_of_int_one_iff by lia.
  rewrite count_true_all_iff. subst bs. rewrite Forall_map. reflexivity.
Qed.

End Program.

(** ** Concrete runs *)

Lemma counter_draw_range (g : nat) (n : Z) (p : float) :
  0 <= n -> 0 <= fst (counter_draw g n p) <= n.
Proof.
  intros Hn. unfold counter_draw. cbn [fst].
  pose proof (Z.mod_pos_bound (Z.of_nat g) (n + 1) ltac:(lia)). lia.
Qed.

Lemma sample_size_500_valid : 0 < 500 <= max_sample_size.
Proof. unfold max_sample_size. lia. Qed.


Lemma repetitions_3_valid : 0 < 3 <= max_repetitions.
Proof. unfold max_repetitions. lia. Qed.


Lemma estimate_is_fraction_significant_witness :
  calculate_power nat counter_draw constant_ppf 500 alpha alpha alpha 3 0%nat =
  (Returns (fraction_significant (constant_ppf (fsub one (fdiv alpha two))) 500
              (drawn_control nat counter_draw 0%nat 500 alpha 3)
              (drawn_treatment nat counter_draw 0%nat 500 alpha alpha 3)),
   state_after nat counter_draw 0%nat 500 alpha alpha 3).
Proof.
  apply (estimate_is_fraction_significant nat counter_draw counter_draw_range constant_ppf).
  - exact sample_size_500_valid.
  - reflexivity.
  - reflexivity.
  - reflexivity.
  - exact repetitions_3_valid.
Defined.

Lemma pooled_proportion_and_standard_error_witness :
  nth_error (pooled_prob_of 500 (drawn_control nat counter_draw 0%nat 500 alpha 3)
               (drawn_treatment nat counter_draw 0%nat 500 alpha alpha 3)) 1 =
  Some (pooled_proportion 500 1 4).
Proof.
  pose proof (pooled_proportion_and_standard_error nat counter_draw counter_draw_range
                500 alpha alpha 3 0%nat 1%nat 1 4 sample_size_500_valid
                eq_refl eq_refl) as H.
  cbv zeta in H. exact (proj1 H).
Defined.




Lemma estimate_never_raises_witness :
  exists power g',
    calculate_power nat counter_draw constant_ppf 500 alpha alpha alpha 3 0%nat =
      (Returns power, g').
Proof.
  apply (estimate_never_raises nat counter_draw counter_draw_range constant_ppf
           500 alpha alpha alpha 3 0%nat).
  - exact sample_size_500_valid.
  - reflexivity.
  - reflexivity.
  - reflexivity.
  - exact repetitions_3_valid.
Defined.





Lemma slider_literals_check :
  slider_value p_control_slider = fdiv (of_int 5) (of_int 100) /\
  slider_value p_treatment_slider = fdiv (of_int 6) (of_int 100) /\
  slider_min p_control_slider = fdiv (of_int 1) (of_int 100) /\
  slider_max p_control_slider = fdiv (of_int 1) (of_int 10) /\
  slider_step p_control_slider = fdiv (of_int 1) (of_int 1000).
Proof. repeat split; vm_compute; reflexivity. Qed.



Lemma equal_counts_not_significant_witness :
  nth_error
    (arr_gt (np_abs (z_scores_of 500 [3; 40] [3; 60]
                       (pooled_se_of 500 (pooled_prob_of 500 [3; 40] [3; 60]))))
            (critical_value_of constant_ppf alpha)) 0 = Some false.
Proof.
  exact (equal_counts_not_significant constant_ppf 500 alpha [3; 40] [3; 60] 0%nat 3
           eq_refl eq_refl eq_refl).
Defined.

Lemma degenerate_critical_value_gives_zero_witness :
  power_of nan_ppf 500 alpha [20; 40] [60; 45] = fzero.
Proof.
  apply (degenerate_critical_value_gives_zero nan_ppf 500 alpha [20; 40] [60; 45]).
  - left. reflexivity.
  - unfold max_repetitions. simpl. lia.
Defined.

Lemma run_raises_iff_no_estimation_returned_witness :
  raised (fst (driver nat
                 (fun n => calculate_power nat counter_draw constant_ppf n two alpha
                             alpha num_simulations)
                 sample_sizes 0%nat)) =
  Some (ValueError "not enough values to unpack (expected 2, got 0)").
Proof.
  pose proof (run_raises_iff_no_estimation_returned nat
                (fun n => calculate_power nat counter_draw constant_ppf n two alpha
                            alpha num_simulations)
                sample_sizes 0%nat) as H.
  cbv zeta in H. exact (proj1 (proj1 H eq_refl)).
Defined.

Lemma slider_run_plots_full_grid_witness :
  exists powers : list float,
    raised (fst (plot_power_analysis nat counter_draw constant_ppf
                   (slider_value p_control_slider) (slider_value p_treatment_slider)
                   0%nat)) = None /\
    List.length powers = 15%nat.
Proof.
  destruct (slider_run_plots_full_grid nat counter_draw constant_ppf
              (slider_value p_control_slider) (slider_value p_treatment_slider) 0%nat
              eq_refl eq_refl) as (powers & H).
  cbv zeta in H. destruct H as (Hr & _ & Hl & _).
  exists powers. split; assumption.
Defined.

Lemma zero_power_iff_no_significant_trial_witness :
  power_of constant_ppf 500 alpha [20; 40] [60; 45] = fzero <->
  Forall (fun ct => fgtb (fabs (z_score_at 500 (fst ct) (snd ct)))
                         (critical_value_of constant_ppf alpha) = false)
         (combine [20; 40] [60; 45]).
Proof.
  apply (zero_power_iff_no_significant_trial constant_ppf 500 alpha [20; 40] [60; 45]).
  unfold max_repetitions. simpl. lia.
Defined.

Lemma unit_power_iff_every_trial_significant_witness :
  power_of constant_ppf 500 alpha [20; 40] [60; 45] = one <->
  Forall (fun ct => fgtb (fabs (z_score_at 500 (fst ct) (snd ct)))
                         (critical_value_of constant_ppf alpha) = true)
         (combine [20; 40] [60; 45]).
Proof.
  apply (unit_power_iff_every_trial_significant constant_ppf 500 alpha [20; 40] [60; 45]).
  unfold max_repetitions. simpl. lia.
Defined.
